(** * Full-page screenshot extension: capture-and-stitch pipeline

    A shallow embedding of [background.js].  The file holds two versions of
    the background script:

    - the first one ([captureCurrentViewport], [processScreenshots],
      [processImages]) keeps its session in three globals, advances by 90%
      of the viewport per tile through a chain of callbacks and composites
      on a canvas filled white; it is embedded in [Module Stepped];
    - the second one ([handleCapture], [combineScreenshots]) is an [async]
      loop that advances by a whole viewport, clamps the placement of the
      last tile and restores the scroll offset; it is embedded in
      [Module Looped].

    The browser (scripting, tabs, downloads, canvas) is a black box for the
    script; it is modelled by an oracle [Host] for the calls that can fail
    and by a [World] that records what the script did to the page. *)

From Stdlib Require Import ZArith List Sorted Lia Bool Ascii String QArith Qround.
Import ListNotations.
Open Scope Z_scope.

(** ** JavaScript numbers

    Every number the script computes with is an integer pixel count or an
    index, except the result of [Math.ceil(a / b)], which is [Infinity],
    [-Infinity] or [NaN] when [b] is [0].  Integers are exact in a double
    below 2^53, so they are modelled by [Z]. *)

Inductive jsnum : Type :=
| Fin (z : Z)
| PosInf
| NegInf
| NaN.

(** [Math.ceil(a / b)] for integers [a] and [b]. *)
Definition ceilDiv (a b : Z) : jsnum :=
  if b =? 0 then
    if a =? 0 then NaN else if 0 <? a then PosInf else NegInf
  else Fin (- ((- a) / b)).

(** [n - 1]. *)
Definition jsPred (n : jsnum) : jsnum :=
  match n with
  | Fin z => Fin (z - 1)
  | other => other
  end.

(** [i < n] for an integer [i]; every comparison with [NaN] is false. *)
Definition jsLt (i : Z) (n : jsnum) : bool :=
  match n with
  | Fin z => i <? z
  | PosInf => true
  | NegInf => false
  | NaN => false
  end.

(** ** Rasters, data URLs and the canvas *)

Record Color : Type := RGBA { red : Z; green : Z; blue : Z; alpha : Z }.

(** ['#FFFFFF'] as a fill style. *)
Definition white : Color := RGBA 255 255 255 255.

(** A fresh canvas bitmap is transparent black. *)
Definition transparent : Color := RGBA 0 0 0 0.

Record Image : Type := {
  naturalWidth : Z;
  naturalHeight : Z;
  pixelAt : Z -> Z -> Color
}.

(** A data URL either decodes to an image ([img.onload]) or does not
    ([img.onerror]). *)
Inductive DataUrl : Type :=
| Png (img : Image)
| Corrupt.

Definition decode (url : DataUrl) : option Image :=
  match url with
  | Png img => Some img
  | Corrupt => None
  end.

Record Canvas : Type := {
  canvasWidth : Z;
  canvasHeight : Z;
  bitmap : Z -> Z -> Color
}.

(** [document.createElement('canvas')]: 300 x 150, transparent. *)
Definition createCanvas : Canvas :=
  {| canvasWidth := 300; canvasHeight := 150; bitmap := fun _ _ => transparent |}.

(** [canvas.width = w]; setting a dimension clears the bitmap. *)
Definition setWidth (w : Z) (c : Canvas) : Canvas :=
  {| canvasWidth := w; canvasHeight := canvasHeight c;
     bitmap := fun _ _ => transparent |}.

(** [canvas.height = h]. *)
Definition setHeight (h : Z) (c : Canvas) : Canvas :=
  {| canvasWidth := canvasWidth c; canvasHeight := h;
     bitmap := fun _ _ => transparent |}.

Definition inRect (x y w h px py : Z) : bool :=
  (x <=? px) && (px <? x + w) && (y <=? py) && (py <? y + h).

(** [n / d] rounded to the nearest integer. *)
Definition roundDiv (n d : Z) : Z := (2 * n + d) / (2 * d).

(** A pixel that is neither opaque nor fully transparent drawn over
    another: the channels and the alpha of the compositing formula, each
    rounded to the nearest integer.  A browser computes on premultiplied
    bytes and may differ from this in the last bit; the properties proved
    of drawn pixels take the pixel to be opaque. *)
Definition blend (src dst : Color) : Color :=
  let a := alpha src * 255 + alpha dst * (255 - alpha src) in
  let mix (cs cd : Z) :=
    if a =? 0 then 0
    else roundDiv (cs * alpha src * 255 + cd * alpha dst * (255 - alpha src)) a in
  RGBA (mix (red src) (red dst)) (mix (green src) (green dst))
       (mix (blue src) (blue dst)) (roundDiv a 255).

(** The canvas draws with the default composite operation, source-over:
    an opaque pixel replaces what is there, a fully transparent one
    leaves it, any other is blended with it. *)
Definition sourceOver (src dst : Color) : Color :=
  if 255 <=? alpha src then src
  else if alpha src <=? 0 then dst
  else blend src dst.

(** [ctx.fillStyle = color; ctx.fillRect(x, y, w, h)]. *)
Definition fillRect (color : Color) (x y w h : Z) (c : Canvas) : Canvas :=
  {| canvasWidth := canvasWidth c; canvasHeight := canvasHeight c;
     bitmap := fun px py =>
       if inRect x y w h px py
       then sourceOver color (bitmap c px py)
       else bitmap c px py |}.

(** [ctx.drawImage(img, dx, dy)]: the image is drawn unscaled with its
    top-left corner at [(dx, dy)], each of its pixels over the pixel of
    the canvas under it. *)
Definition drawImage (img : Image) (dx dy : Z) (c : Canvas) : Canvas :=
  {| canvasWidth := canvasWidth c; canvasHeight := canvasHeight c;
     bitmap := fun px py =>
       if inRect dx dy (naturalWidth img) (naturalHeight img) px py
       then sourceOver (pixelAt img (px - dx) (py - dy)) (bitmap c px py)
       else bitmap c px py |}.

(** The pixel of the surface at [(x, y)]; the surface ends at the canvas
    edges, whatever was drawn beyond them is clipped. *)
Definition getPixel (c : Canvas) (x y : Z) : Color :=
  if inRect 0 0 (canvasWidth c) (canvasHeight c) x y
  then bitmap c x y
  else transparent.

(** [canvas.toDataURL('image/png')]. *)
Definition toDataURL (c : Canvas) : DataUrl :=
  Png {| naturalWidth := canvasWidth c; naturalHeight := canvasHeight c;
         pixelAt := getPixel c |}.

(** ** The host and the world *)

(** What the browser answers to the calls that can fail.  Calls are
    identified by the index of the tile they are made for. *)
Record Host : Type := {
  (** does the injected scroll script of tile [i] resolve? *)
  scrollOk : Z -> bool;
  (** [chrome.tabs.captureVisibleTab] for tile [i]; [None] is a rejection *)
  shot : Z -> option DataUrl;
  (** does the script that restores the scroll offset resolve? *)
  restoreOk : bool;
  (** does the injection of the compositing script resolve? *)
  injectOk : bool
}.

Inductive Event : Type :=
| Scrolled (y : Z)
| Waited (ms : Z)
| Captured (tile : Z)
| ConsoleError (msg : string)
| Downloaded.

(** What the script did to the tab: the scroll offset it left the page at
    (the offset it asked for), its effects with the most recent first, and
    the data URL handed to [chrome.downloads.download]. *)
Record World : Type := {
  pageScrollY : Z;
  log : list Event;
  download : option DataUrl
}.

Definition scrollWorld (y : Z) (w : World) : World :=
  {| pageScrollY := y; log := Scrolled y :: log w; download := download w |}.

Definition emit (e : Event) (w : World) : World :=
  {| pageScrollY := pageScrollY w; log := e :: log w; download := download w |}.

(** The [downloadImage] / [downloadRequest] branch of the message listener. *)
Definition downloadWorld (url : DataUrl) (w : World) : World :=
  {| pageScrollY := pageScrollY w; log := Downloaded :: log w;
     download := Some url |}.

(** How a chain of callbacks or an [async] function ends: it ran to its
    end, it ended in an exception nobody catches, or it is still waiting
    (out of fuel, or on a promise nobody resolves). *)
Inductive Outcome (A : Type) : Type :=
| Settled (a : A)
| Rejected (a : A)
| Waiting.

Arguments Settled {A} a.
Arguments Rejected {A} a.
Arguments Waiting {A}.

(** The DOM extents the measuring scripts read. *)
Record Page : Type := {
  bodyScrollHeight : Z;
  bodyOffsetHeight : Z;
  docClientHeight : Z;
  docScrollHeight : Z;
  docOffsetHeight : Z;
  bodyScrollWidth : Z;
  bodyOffsetWidth : Z;
  docClientWidth : Z;
  docScrollWidth : Z;
  docOffsetWidth : Z;
  innerHeight : Z;
  innerWidth : Z;
  windowScrollY : Z
}.

Definition worldOf (p : Page) : World :=
  {| pageScrollY := windowScrollY p; log := []; download := None |}.

(** [Math.max] of five integers. *)
Definition max5 (a b c d e : Z) : Z :=
  Z.max a (Z.max b (Z.max c (Z.max d e))).

(** ** First version: 90% steps, callbacks, white canvas *)

Module Stepped.

Record Dimensions : Type := {
  width : Z;
  height : Z;
  originalScrollPos : Z;
  viewportHeight : Z;
  viewportWidth : Z
}.

Record Screenshot : Type := {
  dataUrl : DataUrl;
  scrollY : Z
}.

(** The globals [currentTab], [screenshots] and [dimensions], with the
    world they act on. *)
Record Background : Type := {
  currentTab : option Z;
  screenshots : list Screenshot;
  dimensions : option Dimensions;
  world : World
}.

Definition withWorld (w : World) (s : Background) : Background :=
  {| currentTab := currentTab s; screenshots := screenshots s;
     dimensions := dimensions s; world := w |}.

(** [screenshots.push(shot)]. *)
Definition push (x : Screenshot) (s : Background) : Background :=
  {| currentTab := currentTab s; screenshots := screenshots s ++ [x];
     dimensions := dimensions s; world := world s |}.

Definition consoleError (msg : string) (s : Background) : Background :=
  withWorld (emit (ConsoleError msg) (world s)) s.

(** [measurePage], up to the message it sends. *)
Definition measurePage (p : Page) : Dimensions :=
  {| width := max5 (bodyScrollWidth p) (bodyOffsetWidth p)
                   (docScrollWidth p) (docOffsetWidth p)
                   (if docScrollWidth p =? 0 then 0 else docScrollWidth p);
     height := max5 (bodyScrollHeight p) (bodyOffsetHeight p)
                    (docScrollHeight p) (docOffsetHeight p)
                    (if docScrollHeight p =? 0 then 0 else docScrollHeight p);
     originalScrollPos := windowScrollY p;
     viewportHeight := innerHeight p;
     viewportWidth := innerWidth p |}.

(** [loadImage]: the promise always resolves, with the image or, after
    [console.error("Failed to load image")], with [null] when the data URL
    does not decode. *)
Definition loadImage (url : DataUrl) (w : World) : option Image * World :=
  match decode url with
  | Some img => (Some img, w)
  | None => (None, emit (ConsoleError "Failed to load image") w)
  end.

(** The loop of [drawImages]. *)
Fixpoint drawImages (shots : list Screenshot) (c : Canvas) (w : World)
    : Canvas * World :=
  match shots with
  | [] => (c, w)
  | screenshot :: rest =>
      match loadImage (dataUrl screenshot) w with
      | (Some img, w') =>
          drawImages rest (drawImage img 0 (scrollY screenshot) c) w'
      | (None, w') => drawImages rest c w'
      end
  end.

(** The canvas [processImages] has built, and the world it has left,
    when it calls [toDataURL]. *)
Definition processCanvas (shots : list Screenshot) (d : Dimensions) (w : World)
    : Canvas * World :=
  let canvas := setHeight (height d) (setWidth (width d) createCanvas) in
  let canvas := fillRect white 0 0 (width d) (height d) canvas in
  drawImages shots canvas w.

(** [processImages], run in the page, followed by the [downloadImage]
    message it sends and the download the listener starts. *)
Definition processImages (shots : list Screenshot) (d : Dimensions)
    (w : World) : World :=
  let drawn := processCanvas shots d w in
  downloadWorld (toDataURL (fst drawn)) (snd drawn).

Section Driver.

(** The host of the session. *)
Variable host : Host.

(** The fraction of the viewport advanced per tile.  The script has the
    literal [0.9] here; see [captureCurrentViewport] below. *)
Variable overlapFactor : Q.

(** [Math.floor(viewportHeight * overlapFactor)]. *)
Definition scrollStepAt (viewportHeight : Z) : Z :=
  Qfloor (inject_Z viewportHeight * overlapFactor).

Definition processScreenshots (s : Background) : Background :=
  match currentTab s, screenshots s, dimensions s with
  | None, _, _ => consoleError "No screenshots to process" s
  | _, [], _ => consoleError "No screenshots to process" s
  | Some _, shots, Some d =>
      if injectOk host
      then withWorld (processImages shots d (world s)) s
      else consoleError "Failed to process screenshots:" s
  | Some _, _, None =>
      (* processImages(screenshots, null) fails on [dimensions.width] *)
      consoleError "Failed to process screenshots:" s
  end.

(** [scrollToPosition], with the 200ms it waits before it resolves. *)
Definition scrollToPosition (position : Z) (w : World) : World :=
  emit (Waited 200) (scrollWorld position w).

(** [captureCurrentViewport(scrollIndex)].  One unit of fuel is one call
    of the function; the callbacks of a call run in the order the script
    chains them. *)
Fixpoint captureAt (fuel : nat) (scrollIndex : Z) (s : Background)
    : Outcome Background :=
  match fuel with
  | O => Waiting
  | S fuel' =>
      match currentTab s, dimensions s with
      | Some _, Some d =>
          let scrollStep := scrollStepAt (viewportHeight d) in
          let totalScrolls := ceilDiv (height d) scrollStep in
          let currentScrollPos := scrollIndex * scrollStep in
          if scrollOk host scrollIndex then
            let s := withWorld (scrollToPosition currentScrollPos (world s)) s in
            let s := withWorld (emit (Waited 500) (world s)) s in
            match shot host scrollIndex with
            | Some url =>
                let s := withWorld (emit (Captured scrollIndex) (world s)) s in
                let s := push {| dataUrl := url; scrollY := currentScrollPos |} s in
                if jsLt scrollIndex (jsPred totalScrolls)
                   && (currentScrollPos + scrollStep <? height d)
                then captureAt fuel' (scrollIndex + 1) s
                else Settled (processScreenshots s)
            | None => Settled (consoleError "Failed to capture viewport:" s)
            end
          else Settled (consoleError "Failed to scroll to position:" s)
      | _, _ => Settled s
      end
  end.

(** [beginCapture]. *)
Definition beginCaptureAt (fuel : nat) (s : Background) : Outcome Background :=
  match currentTab s, dimensions s with
  | Some _, Some _ =>
      captureAt fuel 0
        {| currentTab := currentTab s; screenshots := [];
           dimensions := dimensions s; world := world s |}
  | _, _ => Settled (consoleError "Missing tab or dimensions" s)
  end.

End Driver.

(** The script's overlap factor, the literal [0.9].  For an integer
    [0 <= v < 2^50] the double [v * 0.9] and the rational [9 v / 10] have
    the same floor. *)
Definition overlap : Q := 9 # 10.

Definition scrollStep : Z -> Z := scrollStepAt overlap.

Definition captureCurrentViewport (host : Host) :
    nat -> Z -> Background -> Outcome Background :=
  captureAt host overlap.

Definition beginCapture (host : Host) : nat -> Background -> Outcome Background :=
  beginCaptureAt host overlap.

(** A click on the toolbar icon on a tab showing [p]: the measuring
    script reports the dimensions and the listener starts the capture. *)
Definition session (host : Host) (fuel : nat) (tab : Z) (p : Page)
    : Outcome Background :=
  beginCapture host fuel
    {| currentTab := Some tab; screenshots := [];
       dimensions := Some (measurePage p); world := worldOf p |}.

(** The offsets of the tiles of a finished capture. *)
Definition offsets (r : Outcome Background) : list Z :=
  match r with
  | Settled s | Rejected s => map scrollY (screenshots s)
  | Waiting => []
  end.

End Stepped.

(** ** Second version: whole-viewport steps, [async] loop, clamped last tile *)

Module Looped.

Record Dimensions : Type := {
  width : Z;
  height : Z;
  originalScrollPos : Z;
  viewportHeight : Z
}.

Record Screenshot : Type := {
  dataUrl : DataUrl;
  yPosition : Z
}.

(** The local [screenshots] of [handleCapture] with the world it acts on. *)
Record Capture : Type := {
  screenshots : list Screenshot;
  world : World
}.

(** [getPageDimensions], up to the message it sends. *)
Definition getPageDimensions (p : Page) : Dimensions :=
  {| width := max5 (bodyScrollWidth p) (bodyOffsetWidth p)
                   (docClientWidth p) (docScrollWidth p) (docOffsetWidth p);
     height := max5 (bodyScrollHeight p) (bodyOffsetHeight p)
                    (docClientHeight p) (docScrollHeight p) (docOffsetHeight p);
     originalScrollPos := windowScrollY p;
     viewportHeight := innerHeight p |}.

(** The inner [processScreenshots] of [combineScreenshots], up to
    [toDataURL].  The promise awaited for a tile is resolved by
    [img.onload] only: when the data URL does not decode nothing resolves
    it and the function stays suspended there. *)
Fixpoint processScreenshots (shots : list Screenshot) (c : Canvas)
    : Outcome Canvas :=
  match shots with
  | [] => Settled c
  | screenshot :: rest =>
      match decode (dataUrl screenshot) with
      | Some img => processScreenshots rest (drawImage img 0 (yPosition screenshot) c)
      | None => Waiting
      end
  end.

(** The canvas [combineScreenshots] starts from. *)
Definition blankCanvas (width height : Z) : Canvas :=
  setHeight height (setWidth width createCanvas).

(** [combineScreenshots], run in the page: the data URL it sends in its
    [downloadRequest], if it gets there. *)
Definition combineScreenshots (shots : list Screenshot) (width height : Z)
    : Outcome DataUrl :=
  match processScreenshots shots (blankCanvas width height) with
  | Settled c => Settled (toDataURL c)
  | Rejected c => Rejected (toDataURL c)
  | Waiting => Waiting
  end.

Section Driver.

Variable host : Host.
Variable d : Dimensions.

(** The [for] loop of [handleCapture] from index [i] on.  One unit of fuel
    is one run of the loop body; an [await] that rejects ends the function
    there. *)
Fixpoint captureLoop (fuel : nat) (i : Z) (s : Capture) : Outcome Capture :=
  let numFullScreenshots := ceilDiv (height d) (viewportHeight d) in
  if jsLt i numFullScreenshots then
    match fuel with
    | O => Waiting
    | S fuel' =>
        let scrollTo := i * viewportHeight d in
        if scrollOk host i then
          let w := emit (Waited 100) (scrollWorld scrollTo (world s)) in
          match shot host i with
          | Some url =>
              captureLoop fuel' (i + 1)
                {| screenshots := screenshots s ++
                     [ {| dataUrl := url;
                          yPosition := Z.min (i * viewportHeight d)
                                             (height d - viewportHeight d) |} ];
                   world := emit (Captured i) w |}
          | None => Rejected {| screenshots := screenshots s; world := w |}
          end
        else Rejected s
    end
  else Settled s.

(** What [handleCapture] does once its loop is over. *)
Definition finish (s : Capture) : Outcome Capture :=
  if restoreOk host then
    let w := scrollWorld (originalScrollPos d) (world s) in
    if injectOk host then
      match combineScreenshots (screenshots s) (width d) (height d) with
      | Settled url =>
          Settled {| screenshots := screenshots s; world := downloadWorld url w |}
      | _ => Settled {| screenshots := screenshots s; world := w |}
      end
    else Rejected {| screenshots := screenshots s; world := w |}
  else Rejected s.

(** [handleCapture(tabId, dimensions)]. *)
Definition handleCapture (fuel : nat) (w : World) : Outcome Capture :=
  match captureLoop fuel 0 {| screenshots := []; world := w |} with
  | Settled s => finish s
  | Rejected s => Rejected s
  | Waiting => Waiting
  end.

End Driver.

(** A click on the toolbar icon on a tab showing [p]. *)
Definition session (host : Host) (fuel : nat) (p : Page) : Outcome Capture :=
  handleCapture host (getPageDimensions p) fuel (worldOf p).

(** The placements of the tiles of a finished capture. *)
Definition placements (r : Outcome Capture) : list Z :=
  match r with
  | Settled s | Rejected s => map yPosition (screenshots s)
  | Waiting => []
  end.

End Looped.

(** * Properties *)

(** ** Arithmetic of the step and of the number of tiles *)

Lemma scrollStepAt_div (f : Q) (v : Z) :
  Stepped.scrollStepAt f v = (v * Qnum f) / Z.pos (Qden f).
Proof.
  unfold Stepped.scrollStepAt, Qfloor, Qmult, inject_Z. simpl.
  reflexivity.
Qed.

Lemma scrollStep_div (v : Z) : Stepped.scrollStep v = (9 * v) / 10.
Proof.
  unfold Stepped.scrollStep. rewrite scrollStepAt_div.
  change (Qnum Stepped.overlap) with 9.
  change (Z.pos (Qden Stepped.overlap)) with 10.
  f_equal. lia.
Qed.

(** An overlap factor in (0, 1] gives a step of at most one viewport. *)
Lemma scrollStepAt_le (f : Q) (v : Z) :
  (f <= 1)%Q -> 0 <= v -> Stepped.scrollStepAt f v <= v.
Proof.
  intros Hf Hv. rewrite scrollStepAt_div.
  unfold Qle in Hf. simpl in Hf.
  apply Z.div_le_upper_bound; [lia | nia].
Qed.

Lemma scrollStep_lt (v : Z) : 0 < v -> Stepped.scrollStep v < v.
Proof.
  intros Hv. rewrite scrollStep_div.
  apply Z.div_lt_upper_bound; lia.
Qed.

Lemma scrollStep_pos (v : Z) : 2 <= v -> 1 <= Stepped.scrollStep v.
Proof.
  intros Hv. rewrite scrollStep_div.
  apply Z.div_le_lower_bound; lia.
Qed.

Lemma scrollStep_zero (v : Z) : 0 <= v <= 1 -> Stepped.scrollStep v = 0.
Proof.
  intros Hv. rewrite scrollStep_div.
  apply Z.div_small. lia.
Qed.

(** The integer [ceil (a / b)] for a positive [b]. *)
Definition ceiling (a b : Z) : Z := - ((- a) / b).

Lemma ceiling_spec (a b : Z) :
  0 < b -> (ceiling a b - 1) * b < a <= ceiling a b * b.
Proof.
  intros Hb. unfold ceiling.
  pose proof (Z.div_mod (- a) b ltac:(lia)) as Hdm.
  pose proof (Z.mod_pos_bound (- a) b Hb) as Hm.
  nia.
Qed.

Lemma ceiling_lt_iff (a b i : Z) : 0 < b -> i < ceiling a b <-> i * b < a.
Proof.
  intros Hb. pose proof (ceiling_spec a b Hb). split; intros; nia.
Qed.

Lemma ceiling_pos (a b : Z) : 0 < b -> 0 < a -> 1 <= ceiling a b.
Proof.
  intros Hb Ha. pose proof (ceiling_spec a b Hb). nia.
Qed.

Lemma ceilDiv_pos (a b : Z) : 0 < b -> ceilDiv a b = Fin (ceiling a b).
Proof.
  intros Hb. unfold ceilDiv, ceiling.
  destruct (Z.eqb_spec b 0); [lia | reflexivity].
Qed.

Lemma jsLt_ceilDiv (a b i : Z) :
  0 < b -> jsLt i (ceilDiv a b) = (i * b <? a).
Proof.
  intros Hb. rewrite ceilDiv_pos by assumption. simpl.
  pose proof (ceiling_lt_iff a b i Hb).
  destruct (Z.ltb_spec i (ceiling a b)), (Z.ltb_spec (i * b) a); lia.
Qed.

(** The test of [captureCurrentViewport] for one more tile.  For a positive
    step its two conjuncts say the same. *)
Definition more (height step i : Z) : bool :=
  jsLt i (jsPred (ceilDiv height step)) && (i * step + step <? height).

Lemma more_pos (height step i : Z) :
  0 < step -> more height step i = ((i + 1) * step <? height).
Proof.
  intros Hs. unfold more. rewrite ceilDiv_pos by assumption. simpl.
  pose proof (ceiling_lt_iff height step (i + 1) Hs).
  destruct (Z.ltb_spec i (ceiling height step - 1)),
           (Z.ltb_spec (i * step + step) height),
           (Z.ltb_spec ((i + 1) * step) height); simpl; lia.
Qed.

Lemma more_zero (height i : Z) : 0 < height -> more height 0 i = true.
Proof.
  intros Hh. unfold more, ceilDiv. simpl.
  destruct (Z.eqb_spec height 0); [lia |].
  destruct (Z.ltb_spec 0 height); [| lia]. simpl.
  apply Z.ltb_lt. lia.
Qed.

(** A host whose scroll and capture calls all succeed. *)
Definition reliable (host : Host) : Prop :=
  forall i, scrollOk host i = true /\ shot host i <> None.

(** The indices [i, i+1, ..., i+k-1]. *)
Fixpoint indices (k : nat) (i : Z) : list Z :=
  match k with
  | O => []
  | S k' => i :: indices k' (i + 1)
  end.

Lemma indices_length (k : nat) (i : Z) : List.length (indices k i) = k.
Proof.
  revert i. induction k as [| k IH]; intros i; simpl; [reflexivity |].
  now rewrite IH.
Qed.

Lemma indices_In (k : nat) (i j : Z) :
  In j (indices k i) <-> i <= j < i + Z.of_nat k.
Proof.
  revert i. induction k as [| k IH]; intros i; simpl.
  - lia.
  - rewrite IH. lia.
Qed.

Lemma indices_snoc (k : nat) (i : Z) :
  indices (S k) i = indices k i ++ [i + Z.of_nat k].
Proof.
  revert i. induction k as [| k IH]; intros i.
  - simpl. now rewrite Z.add_0_r.
  - change (indices (S (S k)) i) with (i :: indices (S k) (i + 1)).
    rewrite IH. simpl. do 3 f_equal. lia.
Qed.

(** ** What the first version's compositor does to the world *)

(** The console errors of [loadImage] for the tiles that do not decode,
    in the order of the tiles. *)
Fixpoint loadFailures (shots : list Stepped.Screenshot) : list Event :=
  match shots with
  | [] => []
  | screenshot :: rest =>
      match decode (Stepped.dataUrl screenshot) with
      | Some _ => loadFailures rest
      | None => ConsoleError "Failed to load image" :: loadFailures rest
      end
  end.

Lemma drawImages_world (shots : list Stepped.Screenshot) (c : Canvas) (w : World) :
  snd (Stepped.drawImages shots c w) =
  {| pageScrollY := pageScrollY w;
     log := rev (loadFailures shots) ++ log w;
     download := download w |}.
Proof.
  revert c w. induction shots as [| screenshot rest IH]; intros c w; simpl.
  - destruct w; reflexivity.
  - unfold Stepped.loadImage.
    destruct (decode (Stepped.dataUrl screenshot)) as [img |].
    + apply IH.
    + rewrite IH. simpl. rewrite <- app_assoc. reflexivity.
Qed.

Lemma processImages_pageScrollY (shots : list Stepped.Screenshot)
    (d : Stepped.Dimensions) (w : World) :
  pageScrollY (Stepped.processImages shots d w) = pageScrollY w.
Proof.
  unfold Stepped.processImages, Stepped.processCanvas. simpl.
  now rewrite drawImages_world.
Qed.

Lemma processImages_log (shots : list Stepped.Screenshot)
    (d : Stepped.Dimensions) (w : World) :
  rev (log (Stepped.processImages shots d w)) =
  rev (log w) ++ loadFailures shots ++ [Downloaded].
Proof.
  unfold Stepped.processImages, Stepped.processCanvas. simpl.
  rewrite drawImages_world. simpl.
  rewrite rev_app_distr, rev_involutive, <- app_assoc. reflexivity.
Qed.

(** ** The first version's capture chain *)

Module SteppedFacts.
Import Stepped.

Section Run.

Variable host : Host.
Variable f : Q.
Variable d : Dimensions.

Local Abbreviation step := (scrollStepAt f (viewportHeight d)).

(** The globals are set: the state [beginCapture] lets through. *)
Definition ready (s : Background) : Prop :=
  currentTab s <> None /\ dimensions s = Some d.

(** The state after the scroll of tile [i] and the wait that follows. *)
Definition afterScroll (i : Z) (s : Background) : Background :=
  withWorld (emit (Waited 500) (scrollToPosition (i * step) (world s))) s.

(** The state after tile [i] was captured as [url] and pushed. *)
Definition afterTile (i : Z) (url : DataUrl) (s : Background) : Background :=
  {| currentTab := currentTab s;
     screenshots := screenshots s ++ [ {| dataUrl := url; scrollY := i * step |} ];
     dimensions := dimensions s;
     world := emit (Captured i) (world (afterScroll i s)) |}.

(** The state in which the chain stops when tile [i] fails. *)
Definition failedAt (i : Z) (s : Background) : Background :=
  if scrollOk host i
  then consoleError "Failed to capture viewport:" (afterScroll i s)
  else consoleError "Failed to scroll to position:" s.

Lemma captureAt_unfold (fuel : nat) (i : Z) (s : Background) :
  ready s ->
  captureAt host f (S fuel) i s =
    if scrollOk host i then
      match shot host i with
      | Some url =>
          if more (height d) step i
          then captureAt host f fuel (i + 1) (afterTile i url s)
          else Settled (processScreenshots host (afterTile i url s))
      | None => Settled (failedAt i s)
      end
    else Settled (failedAt i s).
Proof.
  intros [Htab Hdim]. unfold failedAt. simpl.
  destruct (currentTab s) as [tab |]; [| contradiction].
  rewrite Hdim.
  destruct (scrollOk host i); [| reflexivity].
  destruct (shot host i); reflexivity.
Qed.

Lemma captureAt_idle (fuel : nat) (i : Z) (s : Background) :
  currentTab s = None \/ dimensions s = None ->
  captureAt host f (S fuel) i s = Settled s.
Proof.
  intros H. simpl.
  destruct (currentTab s), (dimensions s), H; congruence.
Qed.

Lemma afterTile_ready (i : Z) (url : DataUrl) (s : Background) :
  ready s -> ready (afterTile i url s).
Proof. intros H. exact H. Qed.

(** [k] tiles captured in a row from index [i] on. *)
Fixpoint tiles (k : nat) (i : Z) (s : Background) : Background :=
  match k with
  | O => s
  | S k' =>
      match shot host i with
      | Some url => tiles k' (i + 1) (afterTile i url s)
      | None => s
      end
  end.

Lemma tiles_ready (k : nat) (i : Z) (s : Background) :
  ready s -> ready (tiles k i s).
Proof.
  revert i s. induction k as [| k IH]; intros i s H; simpl; [exact H |].
  destruct (shot host i); [| exact H].
  apply IH, afterTile_ready, H.
Qed.

Lemma tiles_offsets (k : nat) (i : Z) (s : Background) :
  (forall j, i <= j < i + Z.of_nat k -> shot host j <> None) ->
  map scrollY (screenshots (tiles k i s)) =
  map scrollY (screenshots s) ++ map (fun j => j * step) (indices k i).
Proof.
  revert i s. induction k as [| k IH]; intros i s H.
  - simpl. now rewrite app_nil_r.
  - simpl. destruct (shot host i) as [url |] eqn:E.
    + rewrite IH by (intros j Hj; apply H; lia).
      simpl. rewrite map_app, <- app_assoc. reflexivity.
    + exfalso. apply (H i); [lia | exact E].
Qed.

Lemma tiles_download (k : nat) (i : Z) (s : Background) :
  download (world (tiles k i s)) = download (world s).
Proof.
  revert i s. induction k as [| k IH]; intros i s; simpl; [reflexivity |].
  destruct (shot host i); [| reflexivity].
  now rewrite IH.
Qed.

(** After at least one tile the page is where the last tile put it. *)
Lemma tiles_pageScrollY (k : nat) (i : Z) (s : Background) :
  (forall j, i <= j < i + Z.of_nat (S k) -> shot host j <> None) ->
  pageScrollY (world (tiles (S k) i s)) = (i + Z.of_nat k) * step.
Proof.
  revert i s. induction k as [| k IH]; intros i s H.
  - simpl. destruct (shot host i) as [url |] eqn:E.
    + simpl. now rewrite Z.add_0_r.
    + exfalso. apply (H i); [lia | exact E].
  - change (tiles (S (S k)) i s)
      with (match shot host i with
            | Some url => tiles (S k) (i + 1) (afterTile i url s)
            | None => s
            end).
    destruct (shot host i) as [url |] eqn:E.
    + rewrite IH by (intros j Hj; apply H; lia). f_equal. lia.
    + exfalso. apply (H i); [lia | exact E].
Qed.

(** The chain when the host serves every tile it is asked for. *)
Lemma captureAt_success (k : nat) : forall (fuel : nat) (i : Z) (s : Background),
  ready s ->
  (forall j, i <= j <= i + Z.of_nat k ->
     scrollOk host j = true /\ shot host j <> None) ->
  (forall j, i <= j < i + Z.of_nat k -> more (height d) step j = true) ->
  more (height d) step (i + Z.of_nat k) = false ->
  (k < fuel)%nat ->
  captureAt host f fuel i s =
  Settled (processScreenshots host (tiles (S k) i s)).
Proof.
  induction k as [| k IH]; intros fuel i s Hr Hs Hm Hl Hf;
    (destruct fuel as [| fuel]; [lia |]);
    rewrite captureAt_unfold by exact Hr;
    destruct (Hs i ltac:(lia)) as [Hsc Hsh];
    rewrite Hsc; simpl tiles;
    (destruct (shot host i) as [url |]; [| congruence]).
  - rewrite Z.add_0_r in Hl. rewrite Hl. reflexivity.
  - rewrite (Hm i) by lia.
    rewrite (IH fuel (i + 1) (afterTile i url s)).
    + reflexivity.
    + apply afterTile_ready, Hr.
    + intros j Hj. apply Hs. lia.
    + intros j Hj. apply Hm. lia.
    + rewrite <- Hl. f_equal. lia.
    + lia.
Qed.

(** The chain when tile [i + k] is the first the host fails on. *)
Lemma captureAt_failure (k : nat) : forall (fuel : nat) (i : Z) (s : Background),
  ready s ->
  (forall j, i <= j < i + Z.of_nat k ->
     scrollOk host j = true /\ shot host j <> None) ->
  (forall j, i <= j < i + Z.of_nat k -> more (height d) step j = true) ->
  scrollOk host (i + Z.of_nat k) = false \/ shot host (i + Z.of_nat k) = None ->
  (k < fuel)%nat ->
  captureAt host f fuel i s =
  Settled (failedAt (i + Z.of_nat k) (tiles k i s)).
Proof.
  induction k as [| k IH]; intros fuel i s Hr Hs Hm Hl Hf;
    (destruct fuel as [| fuel]; [lia |]);
    rewrite captureAt_unfold by exact Hr.
  - rewrite Z.add_0_r in *. simpl tiles.
    destruct Hl as [Hl | Hl]; rewrite Hl; [reflexivity |].
    destruct (scrollOk host i); reflexivity.
  - destruct (Hs i ltac:(lia)) as [Hsc Hsh].
    rewrite Hsc. simpl tiles.
    destruct (shot host i) as [url |]; [| congruence].
    rewrite (Hm i) by lia.
    rewrite (IH fuel (i + 1) (afterTile i url s)).
    + do 2 f_equal. lia.
    + apply afterTile_ready, Hr.
    + intros j Hj. apply Hs. lia.
    + intros j Hj. apply Hm. lia.
    + replace (i + 1 + Z.of_nat k) with (i + Z.of_nat (S k)) by lia. exact Hl.
    + lia.
Qed.

(** The number of tiles of a capture nothing interrupts. *)
Definition tileCount : nat := Z.to_nat (Z.max 1 (ceiling (height d) step)).

(** [beginCapture] empties [screenshots] before the first tile. *)
Definition reset (s : Background) : Background :=
  {| currentTab := currentTab s; screenshots := [];
     dimensions := dimensions s; world := world s |}.

Lemma captureAt_reliable (fuel : nat) (s : Background) :
  reliable host -> ready s -> 0 < step -> (tileCount <= fuel)%nat ->
  captureAt host f fuel 0 s =
  Settled (processScreenshots host (tiles tileCount 0 s)).
Proof.
  intros Hh Hr Hs Hf. unfold tileCount in *.
  pose proof (ceiling_spec (height d) step Hs) as Hc.
  set (n := Z.max 1 (ceiling (height d) step)) in *.
  assert (Hn : 1 <= n) by lia.
  replace (Z.to_nat n) with (S (Z.to_nat (n - 1))) in * by lia.
  apply captureAt_success.
  - exact Hr.
  - intros j _. apply Hh.
  - intros j Hj. rewrite more_pos by exact Hs. apply Z.ltb_lt. nia.
  - rewrite more_pos by exact Hs. apply Z.ltb_ge. nia.
  - lia.
Qed.

Lemma beginCaptureAt_reliable (fuel : nat) (s : Background) :
  reliable host -> ready s -> 0 < step -> (tileCount <= fuel)%nat ->
  beginCaptureAt host f fuel s =
  Settled (processScreenshots host (tiles tileCount 0 (reset s))).
Proof.
  intros Hh Hr Hs Hf.
  assert (Hr' : ready (reset s)) by exact Hr.
  rewrite <- (captureAt_reliable fuel (reset s)) by assumption.
  destruct Hr as [Htab Hdim]. unfold beginCaptureAt, reset.
  destruct (currentTab s) as [tab |]; [| contradiction].
  rewrite Hdim. reflexivity.
Qed.

Lemma processScreenshots_screenshots (s : Background) :
  screenshots (processScreenshots host s) = screenshots s.
Proof.
  unfold processScreenshots.
  destruct (currentTab s), (screenshots s) eqn:E, (dimensions s), (injectOk host);
    simpl; congruence.
Qed.

Lemma processScreenshots_pageScrollY (s : Background) :
  pageScrollY (world (processScreenshots host s)) = pageScrollY (world s).
Proof.
  unfold processScreenshots.
  destruct (currentTab s), (screenshots s), (dimensions s), (injectOk host);
    try reflexivity; simpl; apply processImages_pageScrollY.
Qed.

(** The offsets of an uninterrupted capture: the multiples of the step. *)
Lemma offsets_reliable (fuel : nat) (s : Background) :
  reliable host -> ready s -> 0 < step -> (tileCount <= fuel)%nat ->
  offsets (beginCaptureAt host f fuel s) =
  map (fun j => j * step) (indices tileCount 0).
Proof.
  intros Hh Hr Hs Hf. rewrite beginCaptureAt_reliable by assumption.
  unfold offsets. rewrite processScreenshots_screenshots.
  rewrite tiles_offsets by (intros j _; apply Hh).
  reflexivity.
Qed.

Lemma failedAt_screenshots (i : Z) (s : Background) :
  screenshots (failedAt i s) = screenshots s.
Proof. unfold failedAt. destruct (scrollOk host i); reflexivity. Qed.

Lemma failedAt_download (i : Z) (s : Background) :
  download (world (failedAt i s)) = download (world s).
Proof. unfold failedAt. destruct (scrollOk host i); reflexivity. Qed.

Lemma failedAt_log (i : Z) (s : Background) :
  exists msg rest, log (world (failedAt i s)) = ConsoleError msg :: rest.
Proof.
  unfold failedAt. destruct (scrollOk host i); simpl; eauto.
Qed.

(** Whatever the host does, a positive step ends the chain within
    [ceil (height / step)] calls. *)
Lemma captureAt_settles (fuel : nat) : forall (i : Z) (s : Background),
  ready s -> 0 < step -> 0 <= i ->
  ceiling (height d) step - i <= Z.of_nat fuel -> (1 <= fuel)%nat ->
  exists s', captureAt host f fuel i s = Settled s' /\
             (List.length (screenshots s') <= List.length (screenshots s) + fuel)%nat.
Proof.
  induction fuel as [| fuel IH]; intros i s Hr Hs Hi Hc Hf; [lia |].
  rewrite captureAt_unfold by exact Hr.
  destruct (scrollOk host i) eqn:Hsc.
  - destruct (shot host i) as [url |] eqn:Hsh.
    + destruct (more (height d) step i) eqn:Hm.
      * rewrite more_pos in Hm by exact Hs. apply Z.ltb_lt in Hm.
        apply (ceiling_lt_iff (height d) step (i + 1) Hs) in Hm.
        destruct (IH (i + 1) (afterTile i url s)) as [s' [Hrun Hlen]];
          try lia; [apply afterTile_ready, Hr |].
        exists s'. split; [exact Hrun |].
        simpl in Hlen. rewrite length_app in Hlen. simpl in Hlen. lia.
      * eexists. split; [reflexivity |].
        rewrite processScreenshots_screenshots. simpl.
        rewrite length_app. simpl. lia.
    + eexists. split; [reflexivity |]. rewrite failedAt_screenshots. lia.
  - eexists. split; [reflexivity |]. rewrite failedAt_screenshots. lia.
Qed.

(** With a step of zero and a host that never fails the chain goes on
    for ever. *)
Lemma captureAt_diverges (fuel : nat) : forall (i : Z) (s : Background),
  reliable host -> ready s -> step = 0 -> 0 < height d ->
  captureAt host f fuel i s = Waiting.
Proof.
  induction fuel as [| fuel IH]; intros i s Hh Hr Hs Hpos; [reflexivity |].
  rewrite captureAt_unfold by exact Hr.
  destruct (Hh i) as [Hsc Hsh]. rewrite Hsc.
  destruct (shot host i) as [url |]; [| congruence].
  rewrite Hs, more_zero by exact Hpos.
  apply IH; try assumption.
Qed.

End Run.

End SteppedFacts.

(** ** More on the first version's capture chain *)

(** The data URL the host gives for tile [i]. *)
Definition shotUrl (host : Host) (i : Z) : DataUrl :=
  match shot host i with
  | Some dataUrl => dataUrl
  | None => Corrupt
  end.

(** What the first version does to the page for tile [i], in order. *)
Definition steppedRound (step i : Z) : list Event :=
  [Scrolled (i * step); Waited 200; Waited 500; Captured i].

(** What the second version does to the page for tile [i], in order. *)
Definition loopedRound (viewportHeight i : Z) : list Event :=
  [Scrolled (i * viewportHeight); Waited 100; Captured i].

Module SteppedRuns.
Import Stepped SteppedFacts.

Section Run.

Variable host : Host.
Variable f : Q.
Variable d : Dimensions.

Local Abbreviation step := (scrollStepAt f (viewportHeight d)).

Lemma tiles_screenshots (k : nat) (i : Z) (s : Background) :
  (forall j, i <= j < i + Z.of_nat k -> shot host j <> None) ->
  screenshots (tiles host f d k i s) =
  screenshots s ++
  map (fun j => {| dataUrl := shotUrl host j; scrollY := j * step |}) (indices k i).
Proof.
  revert i s. induction k as [| k IH]; intros i s H.
  - simpl. now rewrite app_nil_r.
  - simpl. unfold shotUrl at 1. destruct (shot host i) as [url |] eqn:E.
    + rewrite IH by (intros j Hj; apply H; lia).
      simpl. rewrite <- app_assoc. reflexivity.
    + exfalso. apply (H i); [lia | exact E].
Qed.

Lemma tiles_log (k : nat) (i : Z) (s : Background) :
  (forall j, i <= j < i + Z.of_nat k -> shot host j <> None) ->
  rev (log (world (tiles host f d k i s))) =
  rev (log (world s)) ++ flat_map (steppedRound step) (indices k i).
Proof.
  revert i s. induction k as [| k IH]; intros i s H.
  - simpl. now rewrite app_nil_r.
  - simpl. destruct (shot host i) as [url |] eqn:E.
    + rewrite IH by (intros j Hj; apply H; lia).
      simpl. rewrite <- !app_assoc. reflexivity.
    + exfalso. apply (H i); [lia | exact E].
Qed.


Lemma tiles_nonempty (k : nat) (i : Z) (s : Background) :
  (forall j, i <= j < i + Z.of_nat (S k) -> shot host j <> None) ->
  screenshots (tiles host f d (S k) i s) <> [].
Proof.
  intros H. rewrite tiles_screenshots by exact H.
  simpl. destruct (screenshots s); discriminate.
Qed.

(** [processScreenshots] when there is something to process. *)
Lemma processScreenshots_sends (s : Background) :
  ready d s -> screenshots s <> [] -> injectOk host = true ->
  processScreenshots host s =
  withWorld (processImages (screenshots s) d (world s)) s.
Proof.
  intros [Htab Hdim] Hne Hin. unfold processScreenshots.
  destruct (currentTab s); [| contradiction].
  destruct (screenshots s); [contradiction |].
  rewrite Hdim, Hin. reflexivity.
Qed.

Lemma processScreenshots_refused (s : Background) :
  ready d s -> screenshots s <> [] -> injectOk host = false ->
  processScreenshots host s = consoleError "Failed to process screenshots:" s.
Proof.
  intros [Htab Hdim] Hne Hin. unfold processScreenshots.
  destruct (currentTab s); [| contradiction].
  destruct (screenshots s); [contradiction |].
  rewrite Hdim, Hin. reflexivity.
Qed.

(** Whatever the host answers, the chain records the multiples of the
    step from its index on, one per call at most. *)
Lemma captureAt_prefix (fuel : nat) : forall (i : Z) (s : Background),
  ready d s ->
  match captureAt host f fuel i s with
  | Settled s' | Rejected s' =>
      exists k, (k <= fuel)%nat /\
        map scrollY (screenshots s') =
        map scrollY (screenshots s) ++ map (fun j => j * step) (indices k i)
  | Waiting => True
  end.
Proof.
  induction fuel as [| fuel IH]; intros i s Hr; [exact I |].
  rewrite (captureAt_unfold host f d) by exact Hr.
  destruct (scrollOk host i).
  - destruct (shot host i) as [url |].
    + destruct (more (height d) step i).
      * specialize (IH (i + 1) (afterTile f d i url s)
                       (afterTile_ready f d i url s Hr)).
        destruct (captureAt host f fuel (i + 1) (afterTile f d i url s))
          as [s' | s' |]; try exact I;
          destruct IH as [k [Hk Heq]]; exists (S k);
          (split; [lia |]); rewrite Heq; simpl;
          rewrite map_app, <- app_assoc; reflexivity.
      * exists 1%nat. split; [lia |].
        rewrite processScreenshots_screenshots. simpl.
        rewrite map_app. reflexivity.
    + exists 0%nat. split; [lia |].
      rewrite failedAt_screenshots. simpl. now rewrite app_nil_r.
  - exists 0%nat. split; [lia |].
    rewrite failedAt_screenshots. simpl. now rewrite app_nil_r.
Qed.

End Run.

End SteppedRuns.

(** ** The second version's capture loop *)

Module LoopedFacts.
Import Looped.

Section Run.

Variable host : Host.
Variable d : Dimensions.

Local Abbreviation vh := (viewportHeight d).
Local Abbreviation total := (ceilDiv (height d) (viewportHeight d)).

(** Where the loop places tile [i]. *)
Definition placement (i : Z) : Z := Z.min (i * vh) (height d - vh).

(** The state after the loop body ran for tile [i] and captured [url]. *)
Definition afterTile (i : Z) (url : DataUrl) (s : Capture) : Capture :=
  {| screenshots := screenshots s ++ [ {| dataUrl := url; yPosition := placement i |} ];
     world := emit (Captured i) (emit (Waited 100) (scrollWorld (i * vh) (world s))) |}.

(** The state the loop is left in when the host fails on tile [i]. *)
Definition failedAt (i : Z) (s : Capture) : Capture :=
  if scrollOk host i
  then {| screenshots := screenshots s;
          world := emit (Waited 100) (scrollWorld (i * vh) (world s)) |}
  else s.

Lemma captureLoop_exit (fuel : nat) (i : Z) (s : Capture) :
  jsLt i total = false -> captureLoop host d fuel i s = Settled s.
Proof.
  intros H. destruct fuel; simpl; rewrite H; reflexivity.
Qed.

Lemma captureLoop_unfold (fuel : nat) (i : Z) (s : Capture) :
  jsLt i total = true ->
  captureLoop host d (S fuel) i s =
    if scrollOk host i then
      match shot host i with
      | Some url => captureLoop host d fuel (i + 1) (afterTile i url s)
      | None => Rejected (failedAt i s)
      end
    else Rejected (failedAt i s).
Proof.
  intros H. unfold failedAt. simpl. rewrite H.
  destruct (scrollOk host i); [| reflexivity].
  destruct (shot host i); reflexivity.
Qed.

Lemma captureLoop_starved (i : Z) (s : Capture) :
  jsLt i total = true -> captureLoop host d 0 i s = Waiting.
Proof.
  intros H. simpl. rewrite H. reflexivity.
Qed.

(** [k] tiles captured in a row from index [i] on. *)
Fixpoint tiles (k : nat) (i : Z) (s : Capture) : Capture :=
  match k with
  | O => s
  | S k' =>
      match shot host i with
      | Some url => tiles k' (i + 1) (afterTile i url s)
      | None => s
      end
  end.

Lemma tiles_placements (k : nat) (i : Z) (s : Capture) :
  (forall j, i <= j < i + Z.of_nat k -> shot host j <> None) ->
  map yPosition (screenshots (tiles k i s)) =
  map yPosition (screenshots s) ++ map placement (indices k i).
Proof.
  revert i s. induction k as [| k IH]; intros i s H.
  - simpl. now rewrite app_nil_r.
  - simpl. destruct (shot host i) as [url |] eqn:E.
    + rewrite IH by (intros j Hj; apply H; lia).
      simpl. rewrite map_app, <- app_assoc. reflexivity.
    + exfalso. apply (H i); [lia | exact E].
Qed.

Lemma loop_tiles_download (k : nat) (i : Z) (s : Capture) :
  download (world (tiles k i s)) = download (world s).
Proof.
  revert i s. induction k as [| k IH]; intros i s; simpl; [reflexivity |].
  destruct (shot host i); [| reflexivity].
  now rewrite IH.
Qed.

Lemma captureLoop_success (k : nat) : forall (fuel : nat) (i : Z) (s : Capture),
  (forall j, i <= j < i + Z.of_nat k ->
     scrollOk host j = true /\ shot host j <> None) ->
  (forall j, i <= j < i + Z.of_nat k -> jsLt j total = true) ->
  jsLt (i + Z.of_nat k) total = false ->
  (k <= fuel)%nat ->
  captureLoop host d fuel i s = Settled (tiles k i s).
Proof.
  induction k as [| k IH]; intros fuel i s Hs Hm Hl Hf.
  - rewrite Z.add_0_r in Hl. now apply captureLoop_exit.
  - destruct fuel as [| fuel]; [lia |].
    rewrite captureLoop_unfold by (apply Hm; lia).
    destruct (Hs i ltac:(lia)) as [Hsc Hsh].
    rewrite Hsc. simpl tiles.
    destruct (shot host i) as [url |]; [| congruence].
    apply IH.
    + intros j Hj. apply Hs. lia.
    + intros j Hj. apply Hm. lia.
    + rewrite <- Hl. f_equal. lia.
    + lia.
Qed.

Lemma captureLoop_failure (k : nat) : forall (fuel : nat) (i : Z) (s : Capture),
  (forall j, i <= j < i + Z.of_nat k ->
     scrollOk host j = true /\ shot host j <> None) ->
  (forall j, i <= j <= i + Z.of_nat k -> jsLt j total = true) ->
  scrollOk host (i + Z.of_nat k) = false \/ shot host (i + Z.of_nat k) = None ->
  (k < fuel)%nat ->
  captureLoop host d fuel i s = Rejected (failedAt (i + Z.of_nat k) (tiles k i s)).
Proof.
  induction k as [| k IH]; intros fuel i s Hs Hm Hl Hf;
    (destruct fuel as [| fuel]; [lia |]);
    rewrite captureLoop_unfold by (apply Hm; lia).
  - rewrite Z.add_0_r in *. simpl tiles.
    destruct Hl as [Hl | Hl]; rewrite Hl; [reflexivity |].
    destruct (scrollOk host i); reflexivity.
  - destruct (Hs i ltac:(lia)) as [Hsc Hsh].
    rewrite Hsc. simpl tiles.
    destruct (shot host i) as [url |]; [| congruence].
    rewrite (IH fuel (i + 1) (afterTile i url s)).
    + do 2 f_equal. lia.
    + intros j Hj. apply Hs. lia.
    + intros j Hj. apply Hm. lia.
    + replace (i + 1 + Z.of_nat k) with (i + Z.of_nat (S k)) by lia. exact Hl.
    + lia.
Qed.

(** The number of tiles of a capture nothing interrupts. *)
Definition tileCount : nat := Z.to_nat (ceiling (height d) vh).

Lemma captureLoop_reliable (fuel : nat) (s : Capture) :
  reliable host -> 0 < vh -> (tileCount <= fuel)%nat ->
  captureLoop host d fuel 0 s = Settled (tiles tileCount 0 s).
Proof.
  intros Hh Hv Hf. unfold tileCount in *.
  pose proof (ceiling_spec (height d) vh Hv) as Hc.
  apply captureLoop_success.
  - intros j _. apply Hh.
  - intros j Hj. rewrite jsLt_ceilDiv by exact Hv. apply Z.ltb_lt. nia.
  - rewrite jsLt_ceilDiv by exact Hv. apply Z.ltb_ge. nia.
  - exact Hf.
Qed.

End Run.

End LoopedFacts.

(** ** Compositing *)

(** Images drawn one after the other, each at [(0, y)]. *)
Fixpoint drawAll (tiles : list (Image * Z)) (c : Canvas) : Canvas :=
  match tiles with
  | [] => c
  | (img, y) :: rest => drawAll rest (drawImage img 0 y c)
  end.

(** Is the pixel [(x, y)] under one of the tiles? *)
Definition covered (tiles : list (Image * Z)) (x y : Z) : bool :=
  existsb (fun t => inRect 0 (snd t) (naturalWidth (fst t)) (naturalHeight (fst t)) x y)
          tiles.

Lemma drawAll_size (tiles : list (Image * Z)) (c : Canvas) :
  canvasWidth (drawAll tiles c) = canvasWidth c /\
  canvasHeight (drawAll tiles c) = canvasHeight c.
Proof.
  revert c. induction tiles as [| [img y] rest IH]; intros c; simpl.
  - split; reflexivity.
  - destruct (IH (drawImage img 0 y c)) as [Hw Hh]. rewrite Hw, Hh.
    split; reflexivity.
Qed.

Lemma drawAll_uncovered (tiles : list (Image * Z)) (c : Canvas) (x y : Z) :
  covered tiles x y = false ->
  bitmap (drawAll tiles c) x y = bitmap c x y.
Proof.
  revert c. induction tiles as [| [img dy] rest IH]; intros c H; simpl in *.
  - reflexivity.
  - apply orb_false_iff in H. destruct H as [Hhere Hrest].
    rewrite IH by exact Hrest. simpl. now rewrite Hhere.
Qed.

Lemma getPixel_outside (c : Canvas) (x y : Z) :
  ~ (0 <= x < canvasWidth c /\ 0 <= y < canvasHeight c) ->
  getPixel c x y = transparent.
Proof.
  intros H. unfold getPixel, inRect.
  destruct (Z.leb_spec 0 x), (Z.ltb_spec x (0 + canvasWidth c)),
           (Z.leb_spec 0 y), (Z.ltb_spec y (0 + canvasHeight c));
    simpl; try reflexivity.
  exfalso. apply H. lia.
Qed.

Lemma getPixel_inside (c : Canvas) (x y : Z) :
  0 <= x < canvasWidth c -> 0 <= y < canvasHeight c ->
  getPixel c x y = bitmap c x y.
Proof.
  intros Hx Hy. unfold getPixel, inRect.
  destruct (Z.leb_spec 0 x), (Z.ltb_spec x (0 + canvasWidth c)),
           (Z.leb_spec 0 y), (Z.ltb_spec y (0 + canvasHeight c));
    simpl; try reflexivity; lia.
Qed.

(** The tiles of the first version that decode, with their offsets. *)
Fixpoint steppedTiles (shots : list Stepped.Screenshot) : list (Image * Z) :=
  match shots with
  | [] => []
  | screenshot :: rest =>
      match decode (Stepped.dataUrl screenshot) with
      | Some img => (img, Stepped.scrollY screenshot) :: steppedTiles rest
      | None => steppedTiles rest
      end
  end.

(** The tiles of the second version that decode, with their placements. *)
Fixpoint loopedTiles (shots : list Looped.Screenshot) : list (Image * Z) :=
  match shots with
  | [] => []
  | screenshot :: rest =>
      match decode (Looped.dataUrl screenshot) with
      | Some img => (img, Looped.yPosition screenshot) :: loopedTiles rest
      | None => loopedTiles rest
      end
  end.

(** [drawImages] draws exactly the tiles that decode, in order. *)
Lemma drawImages_drawAll (shots : list Stepped.Screenshot) (c : Canvas) (w : World) :
  fst (Stepped.drawImages shots c w) = drawAll (steppedTiles shots) c.
Proof.
  revert c w. induction shots as [| screenshot rest IH]; intros c w; simpl.
  - reflexivity.
  - unfold Stepped.loadImage.
    destruct (decode (Stepped.dataUrl screenshot)) as [img |]; simpl; apply IH.
Qed.

(** The canvas [processImages] starts from: the page's size, white. *)
Definition whiteCanvas (d : Stepped.Dimensions) : Canvas :=
  fillRect white 0 0 (Stepped.width d) (Stepped.height d)
    (setHeight (Stepped.height d) (setWidth (Stepped.width d) createCanvas)).

Lemma processCanvas_drawAll (shots : list Stepped.Screenshot)
    (d : Stepped.Dimensions) (w : World) :
  fst (Stepped.processCanvas shots d w) =
  drawAll (steppedTiles shots) (whiteCanvas d).
Proof.
  unfold Stepped.processCanvas. apply drawImages_drawAll.
Qed.

Lemma processCanvas_size (shots : list Stepped.Screenshot)
    (d : Stepped.Dimensions) (w : World) :
  canvasWidth (fst (Stepped.processCanvas shots d w)) = Stepped.width d /\
  canvasHeight (fst (Stepped.processCanvas shots d w)) = Stepped.height d.
Proof.
  rewrite processCanvas_drawAll.
  destruct (drawAll_size (steppedTiles shots) (whiteCanvas d)) as [Hw Hh].
  rewrite Hw, Hh. split; reflexivity.
Qed.

Lemma whiteCanvas_white (d : Stepped.Dimensions) (x y : Z) :
  0 <= x < Stepped.width d -> 0 <= y < Stepped.height d ->
  bitmap (whiteCanvas d) x y = white.
Proof.
  intros Hx Hy. simpl. unfold inRect.
  destruct (Z.leb_spec 0 x), (Z.ltb_spec x (0 + Stepped.width d)),
           (Z.leb_spec 0 y), (Z.ltb_spec y (0 + Stepped.height d));
    simpl; try reflexivity; lia.
Qed.

(** The first version's composite is white wherever no tile was drawn. *)
Lemma processCanvas_uncovered_white (shots : list Stepped.Screenshot)
    (d : Stepped.Dimensions) (w : World) (x y : Z) :
  0 <= x < Stepped.width d -> 0 <= y < Stepped.height d ->
  covered (steppedTiles shots) x y = false ->
  getPixel (fst (Stepped.processCanvas shots d w)) x y = white.
Proof.
  intros Hx Hy Hc.
  destruct (processCanvas_size shots d w) as [Hw Hh].
  rewrite getPixel_inside by lia.
  rewrite processCanvas_drawAll.
  rewrite drawAll_uncovered by exact Hc.
  now apply whiteCanvas_white.
Qed.

(** The second version's loop: it settles exactly when every tile decodes,
    and then it has drawn them all. *)
Lemma processScreenshots_settled (shots : list Looped.Screenshot) (c : Canvas) :
  (forall s, In s shots -> decode (Looped.dataUrl s) <> None) ->
  Looped.processScreenshots shots c = Settled (drawAll (loopedTiles shots) c).
Proof.
  revert c. induction shots as [| screenshot rest IH]; intros c H; simpl.
  - reflexivity.
  - destruct (decode (Looped.dataUrl screenshot)) as [img |] eqn:E.
    + simpl. apply IH. intros s Hs. apply H. now right.
    + exfalso. apply (H screenshot); [now left | exact E].
Qed.

Lemma processScreenshots_stalled (shots : list Looped.Screenshot) (c : Canvas) :
  (exists s, In s shots /\ decode (Looped.dataUrl s) = None) ->
  Looped.processScreenshots shots c = Waiting.
Proof.
  revert c. induction shots as [| screenshot rest IH]; intros c [s [Hin Hs]].
  - destruct Hin.
  - simpl. destruct (decode (Looped.dataUrl screenshot)) as [img |] eqn:E.
    + apply IH. exists s. split; [| exact Hs].
      destruct Hin as [-> | Hin]; [congruence | exact Hin].
    + reflexivity.
Qed.

(** ** Tile geometry *)

(** Does the tile placed at [p] contain the row [y]? *)
Definition within (tileHeight y p : Z) : bool :=
  (p <=? y) && (y <? p + tileHeight).

(** Every row of the page is in one of the tiles. *)
Definition covers (places : list Z) (tileHeight total : Z) : Prop :=
  forall y, 0 <= y < total -> existsb (within tileHeight y) places = true.

Lemma sorted_map_indices (g : Z -> Z) (k : nat) (i : Z) :
  (forall a b, i <= a < b -> b < i + Z.of_nat k -> g a < g b) ->
  StronglySorted Z.lt (map g (indices k i)).
Proof.
  revert i. induction k as [| k IH]; intros i H; simpl.
  - constructor.
  - constructor.
    + apply IH. intros a b Ha Hb. apply H; lia.
    + apply Forall_forall. intros y Hy.
      apply in_map_iff in Hy. destruct Hy as [j [<- Hj]].
      apply indices_In in Hj. apply H; lia.
Qed.

Lemma last_map_indices (g : Z -> Z) (k : nat) (i : Z) :
  last (map g (indices (S k) i)) 0 = g (i + Z.of_nat k).
Proof.
  rewrite indices_snoc, map_app. simpl. apply last_last.
Qed.

Lemma finish_placements (host : Host) (d : Looped.Dimensions) (s : Looped.Capture) :
  Looped.placements (Looped.finish host d s) =
  map Looped.yPosition (Looped.screenshots s).
Proof.
  unfold Looped.finish.
  destruct (restoreOk host); [| reflexivity].
  destruct (injectOk host); [| reflexivity].
  destruct (Looped.combineScreenshots _ _ _); reflexivity.
Qed.

(** The placements of an uninterrupted capture of the second version. *)
Lemma placements_reliable (host : Host) (d : Looped.Dimensions) (fuel : nat)
    (w : World) :
  reliable host -> 0 < Looped.viewportHeight d ->
  (LoopedFacts.tileCount d <= fuel)%nat ->
  Looped.placements (Looped.handleCapture host d fuel w) =
  map (LoopedFacts.placement d) (indices (LoopedFacts.tileCount d) 0).
Proof.
  intros Hh Hv Hf. unfold Looped.handleCapture.
  rewrite LoopedFacts.captureLoop_reliable by assumption.
  rewrite finish_placements.
  rewrite LoopedFacts.tiles_placements by (intros j _; apply Hh).
  reflexivity.
Qed.

(** The second version does clamp: its placements increase strictly and
    the last one is [height - viewportHeight]. *)
Lemma looped_placements_clamped (host : Host) (d : Looped.Dimensions)
    (fuel : nat) (w : World) :
  reliable host ->
  0 < Looped.viewportHeight d -> Looped.viewportHeight d <= Looped.height d ->
  (LoopedFacts.tileCount d <= fuel)%nat ->
  StronglySorted Z.lt (Looped.placements (Looped.handleCapture host d fuel w)) /\
  last (Looped.placements (Looped.handleCapture host d fuel w)) 0 =
  Looped.height d - Looped.viewportHeight d.
Proof.
  intros Hh Hv Hle Hf. rewrite placements_reliable by assumption.
  unfold LoopedFacts.tileCount.
  pose proof (ceiling_spec (Looped.height d) (Looped.viewportHeight d) Hv) as Hc.
  set (n := ceiling (Looped.height d) (Looped.viewportHeight d)) in *.
  assert (Hn : 1 <= n) by nia.
  split.
  - apply sorted_map_indices. intros a b Ha Hb.
    unfold LoopedFacts.placement. nia.
  - replace (Z.to_nat n) with (S (Z.to_nat (n - 1))) by lia.
    rewrite last_map_indices. unfold LoopedFacts.placement. nia.
Qed.

(** ** Example inputs *)

(** An image of one colour. *)
Definition solid (w h : Z) (c : Color) : Image :=
  {| naturalWidth := w; naturalHeight := h; pixelAt := fun _ _ => c |}.

Definition gray : Color := RGBA 128 128 128 255.

(** A host that serves every call with an 800 x 1000 screenshot. *)
Definition goodHost : Host :=
  {| scrollOk := fun _ => true;
     shot := fun _ => Some (Png (solid 800 1000 gray));
     restoreOk := true;
     injectOk := true |}.

(** A host whose capture of the second tile (index 1) is rejected. *)
Definition flakyHost : Host :=
  {| scrollOk := fun _ => true;
     shot := fun i => if i =? 1 then None else Some (Png (solid 800 1000 gray));
     restoreOk := true;
     injectOk := true |}.

(** A tab scrolled to offset 50. *)
Definition startWorld : World :=
  {| pageScrollY := 50; log := []; download := None |}.

(** A page 800 wide and [h] high, seen through a viewport [vh] high and
    scrolled to offset [y]. *)
Definition pageOf (h vh y : Z) : Page :=
  {| bodyScrollHeight := h; bodyOffsetHeight := h; docClientHeight := Z.min h vh;
     docScrollHeight := h; docOffsetHeight := h;
     bodyScrollWidth := 800; bodyOffsetWidth := 800; docClientWidth := 800;
     docScrollWidth := 800; docOffsetWidth := 800;
     innerHeight := vh; innerWidth := 800; windowScrollY := y |}.

Definition steppedDims (h vh : Z) : Stepped.Dimensions :=
  {| Stepped.width := 800; Stepped.height := h; Stepped.originalScrollPos := 50;
     Stepped.viewportHeight := vh; Stepped.viewportWidth := 800 |}.

Definition steppedState (h vh : Z) : Stepped.Background :=
  {| Stepped.currentTab := Some 1; Stepped.screenshots := [];
     Stepped.dimensions := Some (steppedDims h vh); Stepped.world := startWorld |}.

Definition loopedDims (w h vh : Z) : Looped.Dimensions :=
  {| Looped.width := w; Looped.height := h; Looped.originalScrollPos := 50;
     Looped.viewportHeight := vh |}.

(** ** The claims *)

(** C1. For [totalHeight > viewportHeight] the offsets of the capture are
    to increase strictly and the last one is to be
    [totalHeight - viewportHeight].  The offsets [captureCurrentViewport]
    records do increase strictly, but they are the plain multiples of the
    step: the last one is [(ceil (height / step) - 1) * step], which lies
    strictly beyond [height - viewportHeight]; it is never clamped. *)
Theorem stepped_last_offset_unclamped
    (host : Host) (d : Stepped.Dimensions) (s : Stepped.Background) (fuel : nat) :
  reliable host -> SteppedFacts.ready d s ->
  2 <= Stepped.viewportHeight d ->
  Stepped.viewportHeight d < Stepped.height d ->
  (SteppedFacts.tileCount Stepped.overlap d <= fuel)%nat ->
  StronglySorted Z.lt (Stepped.offsets (Stepped.beginCapture host fuel s)) /\
  last (Stepped.offsets (Stepped.beginCapture host fuel s)) 0 =
    (ceiling (Stepped.height d) (Stepped.scrollStep (Stepped.viewportHeight d)) - 1)
    * Stepped.scrollStep (Stepped.viewportHeight d) /\
  Stepped.height d - Stepped.viewportHeight d <
    last (Stepped.offsets (Stepped.beginCapture host fuel s)) 0.
Proof.
  intros Hh Hr Hv Hlt Hf.
  pose proof (scrollStep_pos _ Hv) as Hs.
  pose proof (scrollStep_lt (Stepped.viewportHeight d) ltac:(lia)) as Hsv.
  unfold Stepped.beginCapture.
  rewrite (SteppedFacts.offsets_reliable host Stepped.overlap d)
    by (assumption || (unfold Stepped.scrollStep in Hs; lia)).
  unfold SteppedFacts.tileCount. fold (Stepped.scrollStep (Stepped.viewportHeight d)).
  set (st := Stepped.scrollStep (Stepped.viewportHeight d)) in *.
  pose proof (ceiling_spec (Stepped.height d) st ltac:(lia)) as Hc.
  set (n := ceiling (Stepped.height d) st) in *.
  assert (Hn : 1 <= n) by nia.
  replace (Z.to_nat (Z.max 1 n)) with (S (Z.to_nat (n - 1))) by lia.
  rewrite (last_map_indices (fun j => j * st)).
  split; [| split].
  - apply sorted_map_indices. intros a b Ha Hb. nia.
  - f_equal. lia.
  - nia.
Qed.

Lemma stepped_last_offset_unclamped_witness :
  StronglySorted Z.lt
    (Stepped.offsets (Stepped.beginCapture goodHost 3 (steppedState 2500 1000))) /\
  last (Stepped.offsets (Stepped.beginCapture goodHost 3 (steppedState 2500 1000))) 0
    = (ceiling 2500 (Stepped.scrollStep 1000) - 1) * Stepped.scrollStep 1000 /\
  2500 - 1000 <
    last (Stepped.offsets (Stepped.beginCapture goodHost 3 (steppedState 2500 1000))) 0.
Proof.
  apply (stepped_last_offset_unclamped goodHost (steppedDims 2500 1000)
           (steppedState 2500 1000) 3).
  - intros i. split; [reflexivity | discriminate].
  - split; [discriminate | reflexivity].
  - simpl. lia.
  - simpl. lia.
  - vm_compute. lia.
Defined.

(** C2. For [totalHeight = 2500] and [viewportHeight = 1000] the step is
    900 and three tiles are produced; the claim places them at 0, 900 and
    1500.  [captureCurrentViewport] records 0, 900 and 1800: the third
    offset is not clamped. *)
Theorem stepped_scenario_2500_1000
    (host : Host) (d : Stepped.Dimensions) (s : Stepped.Background) (fuel : nat) :
  reliable host -> SteppedFacts.ready d s ->
  Stepped.height d = 2500 -> Stepped.viewportHeight d = 1000 ->
  (3 <= fuel)%nat ->
  Stepped.scrollStep (Stepped.viewportHeight d) = 900 /\
  Stepped.offsets (Stepped.beginCapture host fuel s) = [0; 900; 1800] /\
  Stepped.offsets (Stepped.beginCapture host fuel s) <> [0; 900; 1500].
Proof.
  intros Hh Hr Hht Hv Hf.
  assert (Hs : Stepped.scrollStep (Stepped.viewportHeight d) = 900)
    by (rewrite Hv; reflexivity).
  split; [exact Hs |].
  cut (Stepped.offsets (Stepped.beginCapture host fuel s) = [0; 900; 1800]).
  { intros ->. split; [reflexivity | discriminate]. }
  unfold Stepped.beginCapture.
  assert (Hn : SteppedFacts.tileCount Stepped.overlap d = 3%nat).
  { unfold SteppedFacts.tileCount.
    fold (Stepped.scrollStep (Stepped.viewportHeight d)).
    rewrite Hs, Hht. reflexivity. }
  rewrite (SteppedFacts.offsets_reliable host Stepped.overlap d); try assumption.
  - rewrite Hn. fold (Stepped.scrollStep (Stepped.viewportHeight d)).
    rewrite Hs. reflexivity.
  - fold (Stepped.scrollStep (Stepped.viewportHeight d)). lia.
  - lia.
Qed.

Lemma stepped_scenario_2500_1000_witness :
  Stepped.scrollStep 1000 = 900 /\
  Stepped.offsets (Stepped.beginCapture goodHost 3 (steppedState 2500 1000))
    = [0; 900; 1800] /\
  Stepped.offsets (Stepped.beginCapture goodHost 3 (steppedState 2500 1000))
    <> [0; 900; 1500].
Proof.
  apply (stepped_scenario_2500_1000 goodHost (steppedDims 2500 1000)
           (steppedState 2500 1000) 3).
  - intros i. split; [reflexivity | discriminate].
  - split; [discriminate | reflexivity].
  - reflexivity.
  - reflexivity.
  - lia.
Defined.

(** C3.  For every page height, viewport height and overlap factor in
    (0, 1] with a positive step, the tiles
    [[offset, offset + viewportHeight)] of the capture cover
    [[0, totalHeight)]: for the first version at any overlap factor, in
    particular at the script's 0.9, and for the second version, whose step
    is the whole viewport. *)
Theorem tiles_cover_page :
  (forall (host : Host) (f : Q) (d : Stepped.Dimensions)
          (s : Stepped.Background) (fuel : nat),
     reliable host -> SteppedFacts.ready d s ->
     (f <= 1)%Q ->
     0 < Stepped.viewportHeight d ->
     0 < Stepped.scrollStepAt f (Stepped.viewportHeight d) ->
     (SteppedFacts.tileCount f d <= fuel)%nat ->
     covers (Stepped.offsets (Stepped.beginCaptureAt host f fuel s))
            (Stepped.viewportHeight d) (Stepped.height d)) /\
  (forall (host : Host) (d : Stepped.Dimensions)
          (s : Stepped.Background) (fuel : nat),
     reliable host -> SteppedFacts.ready d s ->
     0 < Stepped.viewportHeight d ->
     0 < Stepped.scrollStep (Stepped.viewportHeight d) ->
     (SteppedFacts.tileCount Stepped.overlap d <= fuel)%nat ->
     covers (Stepped.offsets (Stepped.beginCapture host fuel s))
            (Stepped.viewportHeight d) (Stepped.height d)) /\
  (forall (host : Host) (d : Looped.Dimensions) (fuel : nat) (w : World),
     reliable host ->
     0 < Looped.viewportHeight d ->
     (LoopedFacts.tileCount d <= fuel)%nat ->
     covers (Looped.placements (Looped.handleCapture host d fuel w))
            (Looped.viewportHeight d) (Looped.height d)).
Proof.
  assert (Hany : forall (host : Host) (f : Q) (d : Stepped.Dimensions)
                        (s : Stepped.Background) (fuel : nat),
             reliable host -> SteppedFacts.ready d s ->
             (f <= 1)%Q ->
             0 < Stepped.viewportHeight d ->
             0 < Stepped.scrollStepAt f (Stepped.viewportHeight d) ->
             (SteppedFacts.tileCount f d <= fuel)%nat ->
             covers (Stepped.offsets (Stepped.beginCaptureAt host f fuel s))
                    (Stepped.viewportHeight d) (Stepped.height d)).
  { intros host f d s fuel Hh Hr Hf Hv Hs Hfuel y Hy.
    rewrite (SteppedFacts.offsets_reliable host f d) by assumption.
    pose proof (scrollStepAt_le f (Stepped.viewportHeight d) Hf ltac:(lia)) as Hle.
    unfold SteppedFacts.tileCount.
    set (st := Stepped.scrollStepAt f (Stepped.viewportHeight d)) in *.
    pose proof (ceiling_lt_iff (Stepped.height d) st (y / st) Hs) as Hc.
    pose proof (Z.div_mod y st ltac:(lia)) as Hdm.
    pose proof (Z.mod_pos_bound y st Hs) as Hm.
    assert (Hq : 0 <= y / st) by (apply Z.div_pos; lia).
    apply existsb_exists. exists (y / st * st). split.
    - apply in_map_iff. exists (y / st). split; [reflexivity |].
      apply indices_In. nia.
    - unfold within. apply andb_true_iff. split.
      + apply Z.leb_le. nia.
      + apply Z.ltb_lt. nia. }
  split; [exact Hany | split].
  - intros host d s fuel Hh Hr Hv Hs Hfuel.
    apply (Hany host Stepped.overlap d s fuel); try assumption.
    unfold Qle. simpl. lia.
  - intros host d fuel w Hh Hv Hfuel y Hy.
    rewrite placements_reliable by assumption.
    unfold LoopedFacts.tileCount.
    set (v := Looped.viewportHeight d) in *.
    pose proof (ceiling_lt_iff (Looped.height d) v (y / v) Hv) as Hc.
    pose proof (Z.div_mod y v ltac:(lia)) as Hdm.
    pose proof (Z.mod_pos_bound y v Hv) as Hm.
    assert (Hq : 0 <= y / v) by (apply Z.div_pos; lia).
    apply existsb_exists. exists (LoopedFacts.placement d (y / v)). split.
    + apply in_map_iff. exists (y / v). split; [reflexivity |].
      apply indices_In. nia.
    + unfold within, LoopedFacts.placement. fold v.
      apply andb_true_iff. split.
      * apply Z.leb_le. nia.
      * apply Z.ltb_lt. nia.
Qed.

Lemma tiles_cover_page_witness :
  covers (Stepped.offsets
            (Stepped.beginCaptureAt goodHost (3 # 4) 4 (steppedState 2500 1000)))
         1000 2500 /\
  covers (Stepped.offsets (Stepped.beginCapture goodHost 3 (steppedState 2500 1000)))
         1000 2500 /\
  covers (Looped.placements
            (Looped.handleCapture goodHost (loopedDims 800 2500 1000) 3 startWorld))
         1000 2500.
Proof.
  split; [| split].
  - apply (proj1 tiles_cover_page goodHost (3 # 4) (steppedDims 2500 1000)
             (steppedState 2500 1000) 4%nat).
    + intros i. split; [reflexivity | discriminate].
    + split; [discriminate | reflexivity].
    + vm_compute. discriminate.
    + simpl. lia.
    + vm_compute. reflexivity.
    + vm_compute. lia.
  - apply (proj1 (proj2 tiles_cover_page) goodHost (steppedDims 2500 1000)
             (steppedState 2500 1000) 3%nat).
    + intros i. split; [reflexivity | discriminate].
    + split; [discriminate | reflexivity].
    + simpl. lia.
    + vm_compute. reflexivity.
    + vm_compute. lia.
  - apply (proj2 (proj2 tiles_cover_page) goodHost (loopedDims 800 2500 1000)
             3%nat startWorld).
    + intros i. split; [reflexivity | discriminate].
    + simpl. lia.
    + vm_compute. lia.
Defined.

(** C4, as stated, fails: a page exactly one viewport high gets two tiles
    from [captureCurrentViewport], and a page half a viewport high gets its
    one tile placed at a negative offset by [handleCapture]. *)
Lemma single_viewport_not_single_tile :
  Stepped.height (steppedDims 1000 1000)
    <= Stepped.viewportHeight (steppedDims 1000 1000) /\
  Stepped.offsets (Stepped.beginCapture goodHost 5 (steppedState 1000 1000))
    = [0; 900] /\
  Looped.height (loopedDims 800 500 1000)
    <= Looped.viewportHeight (loopedDims 800 500 1000) /\
  Looped.placements
    (Looped.handleCapture goodHost (loopedDims 800 500 1000) 5 startWorld)
    = [-500].
Proof.
  repeat split; try reflexivity; simpl; lia.
Qed.

(** C4, amended.  [captureCurrentViewport] produces exactly one tile, at
    offset 0, exactly when the page is no higher than one step,
    [floor (0.9 * viewportHeight)]; [handleCapture] produces exactly one
    tile for a page of at most one viewport, and places it at offset 0
    when the page is exactly one viewport high. *)
Theorem single_tile_within_step :
  (forall (host : Host) (d : Stepped.Dimensions) (s : Stepped.Background)
          (fuel : nat),
     reliable host -> SteppedFacts.ready d s ->
     2 <= Stepped.viewportHeight d ->
     (SteppedFacts.tileCount Stepped.overlap d <= fuel)%nat ->
     (Stepped.offsets (Stepped.beginCapture host fuel s) = [0] <->
      Stepped.height d <= Stepped.scrollStep (Stepped.viewportHeight d))) /\
  (forall (host : Host) (d : Looped.Dimensions) (fuel : nat) (w : World),
     reliable host ->
     0 < Looped.height d <= Looped.viewportHeight d ->
     (1 <= fuel)%nat ->
     exists p,
       Looped.placements (Looped.handleCapture host d fuel w) = [p] /\
       (Looped.height d = Looped.viewportHeight d -> p = 0)).
Proof.
  split.
  - intros host d s fuel Hh Hr Hv Hf.
    pose proof (scrollStep_pos _ Hv) as Hs.
    unfold Stepped.beginCapture.
    rewrite (SteppedFacts.offsets_reliable host Stepped.overlap d)
      by (assumption || (unfold Stepped.scrollStep in Hs; lia)).
    unfold SteppedFacts.tileCount.
    fold (Stepped.scrollStep (Stepped.viewportHeight d)).
    set (st := Stepped.scrollStep (Stepped.viewportHeight d)) in *.
    pose proof (ceiling_lt_iff (Stepped.height d) st 1 ltac:(lia)) as Hc.
    set (n := ceiling (Stepped.height d) st) in *.
    split.
    + intros H. apply (f_equal (@List.length Z)) in H.
      rewrite length_map, indices_length in H. simpl in H. lia.
    + intros H. replace (Z.to_nat (Z.max 1 n)) with 1%nat by lia.
      reflexivity.
  - intros host d fuel w Hh Hd Hf.
    assert (Hn : LoopedFacts.tileCount d = 1%nat).
    { unfold LoopedFacts.tileCount.
      pose proof (ceiling_spec (Looped.height d) (Looped.viewportHeight d)
                    ltac:(lia)). nia. }
    rewrite placements_reliable by (assumption || lia).
    rewrite Hn. simpl. eexists. split; [reflexivity |].
    unfold LoopedFacts.placement. lia.
Qed.

Lemma single_tile_within_step_witness :
  (Stepped.offsets (Stepped.beginCapture goodHost 1 (steppedState 900 1000)) = [0]
   <-> 900 <= Stepped.scrollStep 1000) /\
  (exists p,
     Looped.placements
       (Looped.handleCapture goodHost (loopedDims 800 1000 1000) 1 startWorld)
       = [p] /\
     (1000 = 1000 -> p = 0)).
Proof.
  split.
  - apply (proj1 single_tile_within_step goodHost (steppedDims 900 1000)
             (steppedState 900 1000) 1%nat).
    + intros i. split; [reflexivity | discriminate].
    + split; [discriminate | reflexivity].
    + simpl. lia.
    + vm_compute. lia.
  - apply (proj2 single_tile_within_step goodHost (loopedDims 800 1000 1000)
             1%nat startWorld).
    + intros i. split; [reflexivity | discriminate].
    + simpl. lia.
    + lia.
Defined.

(** The first version's compositor fills its canvas: its surface has the
    page's size and is white wherever no tile was drawn. *)
Lemma processImages_background_white (shots : list Stepped.Screenshot)
    (d : Stepped.Dimensions) (w : World) :
  exists img,
    download (Stepped.processImages shots d w) = Some (Png img) /\
    naturalWidth img = Stepped.width d /\
    naturalHeight img = Stepped.height d /\
    forall x y, 0 <= x < Stepped.width d -> 0 <= y < Stepped.height d ->
                covered (steppedTiles shots) x y = false ->
                pixelAt img x y = white.
Proof.
  eexists. split; [reflexivity |].
  destruct (processCanvas_size shots d w) as [Hw Hh].
  simpl. repeat split; try assumption.
  intros x y Hx Hy Hc. now apply processCanvas_uncovered_white.
Qed.

(** C5.  The compositor is to start from a surface filled with opaque
    white, so that every pixel no tile covers is white.
    [combineScreenshots] never fills its canvas: in its composite every
    pixel no tile covers is transparent black. *)
Theorem combineScreenshots_background_transparent
    (shots : list Looped.Screenshot) (w h x y : Z) :
  (forall s, In s shots -> decode (Looped.dataUrl s) <> None) ->
  0 <= x < w -> 0 <= y < h ->
  covered (loopedTiles shots) x y = false ->
  exists img,
    Looped.combineScreenshots shots w h = Settled (Png img) /\
    naturalWidth img = w /\ naturalHeight img = h /\
    pixelAt img x y = transparent /\
    pixelAt img x y <> white.
Proof.
  intros Hd Hx Hy Hc. unfold Looped.combineScreenshots.
  rewrite processScreenshots_settled by exact Hd.
  eexists. split; [reflexivity |].
  destruct (drawAll_size (loopedTiles shots) (Looped.blankCanvas w h)) as [Hw Hh].
  simpl. rewrite Hw, Hh.
  assert (Hp : getPixel (drawAll (loopedTiles shots) (Looped.blankCanvas w h)) x y
               = transparent).
  { rewrite getPixel_inside by (rewrite ?Hw, ?Hh; simpl; lia).
    rewrite drawAll_uncovered by exact Hc. reflexivity. }
  repeat split; try reflexivity.
  - exact Hp.
  - rewrite Hp. discriminate.
Qed.

(** A page 1200 wide captured through an 800 wide viewport. *)
Definition wideShots : list Looped.Screenshot :=
  [ {| Looped.dataUrl := Png (solid 800 600 gray); Looped.yPosition := 0 |} ].

Lemma combineScreenshots_background_transparent_witness :
  exists img,
    Looped.combineScreenshots wideShots 1200 600 = Settled (Png img) /\
    naturalWidth img = 1200 /\ naturalHeight img = 600 /\
    pixelAt img 1000 10 = transparent /\
    pixelAt img 1000 10 <> white.
Proof.
  apply (combineScreenshots_background_transparent wideShots 1200 600 1000 10).
  - intros s [<- | []]. discriminate.
  - lia.
  - lia.
  - reflexivity.
Defined.

(** The first version's compositor tolerates a bad tile: a tile that does not
    decode is skipped, the others are drawn in order, and the composite is
    sent for download. *)
Lemma processImages_skips_bad_tiles (shots : list Stepped.Screenshot)
    (d : Stepped.Dimensions) (w : World) :
  download (Stepped.processImages shots d w) =
  Some (toDataURL
          (drawAll (steppedTiles shots)
             (fillRect white 0 0 (Stepped.width d) (Stepped.height d)
                (setHeight (Stepped.height d)
                   (setWidth (Stepped.width d) createCanvas))))).
Proof.
  unfold Stepped.processImages. simpl.
  rewrite processCanvas_drawAll. reflexivity.
Qed.

(** C6.  A tile that does not decode is to be skipped and the composite
    still produced.  [combineScreenshots] awaits a promise that only
    [img.onload] resolves: with one tile that does not decode it never
    gets to [toDataURL], and no composite is sent. *)
Theorem combineScreenshots_stalls_on_bad_tile
    (shots : list Looped.Screenshot) (w h : Z) :
  (exists s, In s shots /\ decode (Looped.dataUrl s) = None) ->
  Looped.combineScreenshots shots w h = Waiting.
Proof.
  intros H. unfold Looped.combineScreenshots.
  now rewrite processScreenshots_stalled.
Qed.

(** Three tiles, the second of which is corrupt. *)
Definition brokenShots : list Looped.Screenshot :=
  [ {| Looped.dataUrl := Png (solid 800 1000 gray); Looped.yPosition := 0 |};
    {| Looped.dataUrl := Corrupt; Looped.yPosition := 1000 |};
    {| Looped.dataUrl := Png (solid 800 1000 gray); Looped.yPosition := 1500 |} ].

Lemma combineScreenshots_stalls_on_bad_tile_witness :
  Looped.combineScreenshots brokenShots 800 2500 = Waiting.
Proof.
  apply (combineScreenshots_stalls_on_bad_tile brokenShots 800 2500).
  exists {| Looped.dataUrl := Corrupt; Looped.yPosition := 1000 |}.
  split; [simpl; tauto | reflexivity].
Defined.

(** The effects since the last console error, most recent first. *)
Fixpoint sinceError (l : list Event) : list Event :=
  match l with
  | [] => []
  | ConsoleError _ :: _ => []
  | e :: rest => e :: sinceError rest
  end.

Definition isScrollTo (y : Z) (e : Event) : bool :=
  match e with
  | Scrolled y' => y' =? y
  | _ => false
  end.

(** Was the page told to scroll to [orig] after the last error? *)
Definition restoreAttempted (orig : Z) (w : World) : bool :=
  existsb (isScrollTo orig) (sinceError (log w)).

Lemma beginCaptureAt_ready (host : Host) (f : Q) (d : Stepped.Dimensions)
    (fuel : nat) (s : Stepped.Background) :
  SteppedFacts.ready d s ->
  Stepped.beginCaptureAt host f fuel s =
  Stepped.captureAt host f fuel 0 (SteppedFacts.reset s).
Proof.
  intros [Htab Hdim]. unfold Stepped.beginCaptureAt, SteppedFacts.reset.
  destruct (Stepped.currentTab s) as [tab |]; [| contradiction].
  rewrite Hdim. reflexivity.
Qed.

(** C7, as stated, fails: when the capture of tile 2 of 3 is rejected the
    session stops with one tile and no download, and the page stays at the
    failed tile's offset; no scroll back to the original offset follows
    the error. *)
Lemma failed_capture_not_restored :
  match Stepped.beginCapture flakyHost 5 (steppedState 2500 1000) with
  | Settled s' =>
      List.length (Stepped.screenshots s') = 1%nat /\
      download (Stepped.world s') = None /\
      rev (log (Stepped.world s')) =
        [Scrolled 0; Waited 200; Waited 500; Captured 0;
         Scrolled 900; Waited 200; Waited 500;
         ConsoleError "Failed to capture viewport:"] /\
      restoreAttempted 50 (Stepped.world s') = false /\
      pageScrollY (Stepped.world s') = 900
  | _ => False
  end.
Proof.
  vm_compute. repeat split.
Qed.

(** C7, amended.  When tile [k] is the first whose scroll or capture
    fails, the session ends there: the [k] tiles before it are all that
    was captured, nothing is composited or downloaded, and the error is
    written to the console, which is the last thing the session does; the
    scroll offset is not restored, the page stays where the last
    successful scroll put it. *)
Theorem failed_tile_aborts_session
    (host : Host) (d : Stepped.Dimensions) (s : Stepped.Background)
    (fuel k : nat) :
  SteppedFacts.ready d s ->
  2 <= Stepped.viewportHeight d ->
  (k < SteppedFacts.tileCount Stepped.overlap d)%nat ->
  (forall j, 0 <= j < Z.of_nat k ->
     scrollOk host j = true /\ shot host j <> None) ->
  scrollOk host (Z.of_nat k) = false \/ shot host (Z.of_nat k) = None ->
  (k < fuel)%nat ->
  exists s' msg rest,
    Stepped.beginCapture host fuel s = Settled s' /\
    List.length (Stepped.screenshots s') = k /\
    download (Stepped.world s') = download (Stepped.world s) /\
    log (Stepped.world s') = ConsoleError msg :: rest /\
    rev rest =
      rev (log (Stepped.world s)) ++
      flat_map (steppedRound (Stepped.scrollStep (Stepped.viewportHeight d)))
               (indices k 0) ++
      (if scrollOk host (Z.of_nat k)
       then [Scrolled (Z.of_nat k * Stepped.scrollStep (Stepped.viewportHeight d));
             Waited 200; Waited 500]
       else []) /\
    pageScrollY (Stepped.world s') =
      (if scrollOk host (Z.of_nat k)
       then Z.of_nat k * Stepped.scrollStep (Stepped.viewportHeight d)
       else match k with
            | O => pageScrollY (Stepped.world s)
            | S k' => Z.of_nat k' * Stepped.scrollStep (Stepped.viewportHeight d)
            end) /\
    restoreAttempted (Stepped.originalScrollPos d) (Stepped.world s') = false.
Proof.
  intros Hr Hv Hk Hs Hfail Hf.
  pose proof (scrollStep_pos _ Hv) as Hst.
  unfold SteppedFacts.tileCount in Hk.
  fold (Stepped.scrollStep (Stepped.viewportHeight d)) in Hk.
  set (before := SteppedFacts.tiles host Stepped.overlap d k 0
                   (SteppedFacts.reset s)).
  set (fin := SteppedFacts.failedAt host Stepped.overlap d (Z.of_nat k) before).
  assert (Hrun : Stepped.beginCapture host fuel s = Settled fin).
  { unfold Stepped.beginCapture.
    rewrite (beginCaptureAt_ready host Stepped.overlap d) by exact Hr.
    rewrite (SteppedFacts.captureAt_failure host Stepped.overlap d k);
      try assumption.
    - reflexivity.
    - intros j Hj. fold (Stepped.scrollStep (Stepped.viewportHeight d)).
      rewrite more_pos by lia. apply Z.ltb_lt.
      apply (ceiling_lt_iff _ _ (j + 1)); lia. }
  assert (Hshots : forall j, 0 <= j < 0 + Z.of_nat k -> shot host j <> None)
    by (intros j Hj; apply Hs; lia).
  assert (Hlog : rev (log (Stepped.world before)) =
                 rev (log (Stepped.world s)) ++
                 flat_map (steppedRound (Stepped.scrollStep (Stepped.viewportHeight d)))
                          (indices k 0)).
  { unfold before. rewrite SteppedRuns.tiles_log by exact Hshots. reflexivity. }
  assert (Hpos : pageScrollY (Stepped.world before) =
                 match k with
                 | O => pageScrollY (Stepped.world s)
                 | S k' => Z.of_nat k' * Stepped.scrollStep (Stepped.viewportHeight d)
                 end).
  { unfold before. destruct k as [| k']; [reflexivity |].
    rewrite SteppedFacts.tiles_pageScrollY by (intros j Hj; apply Hs; lia).
    reflexivity. }
  assert (Hlen : List.length (Stepped.screenshots fin) = k).
  { unfold fin, before. rewrite SteppedFacts.failedAt_screenshots.
    rewrite <- (length_map Stepped.scrollY).
    rewrite SteppedFacts.tiles_offsets by exact Hshots.
    simpl. rewrite length_map. apply indices_length. }
  assert (Hdl : download (Stepped.world fin) = download (Stepped.world s)).
  { unfold fin, before. rewrite SteppedFacts.failedAt_download.
    rewrite SteppedFacts.tiles_download. reflexivity. }
  unfold fin, SteppedFacts.failedAt in *.
  destruct (scrollOk host (Z.of_nat k)).
  - eexists. eexists. eexists. split; [exact Hrun |].
    split; [exact Hlen |]. split; [exact Hdl |].
    split; [reflexivity |]. split; [| split; reflexivity].
    simpl. rewrite Hlog. rewrite <- !app_assoc. reflexivity.
  - eexists. eexists. eexists. split; [exact Hrun |].
    split; [exact Hlen |]. split; [exact Hdl |].
    split; [reflexivity |]. split; [| split; [exact Hpos | reflexivity]].
    rewrite Hlog, app_nil_r. reflexivity.
Qed.

Lemma failed_tile_aborts_session_witness :
  exists s' msg rest,
    Stepped.beginCapture flakyHost 5 (steppedState 2500 1000) = Settled s' /\
    List.length (Stepped.screenshots s') = 1%nat /\
    download (Stepped.world s') = None /\
    log (Stepped.world s') = ConsoleError msg :: rest /\
    rev rest =
      [] ++ flat_map (steppedRound (Stepped.scrollStep 1000)) (indices 1 0) ++
      [Scrolled (1 * Stepped.scrollStep 1000); Waited 200; Waited 500] /\
    pageScrollY (Stepped.world s') = 1 * Stepped.scrollStep 1000 /\
    restoreAttempted 50 (Stepped.world s') = false.
Proof.
  apply (failed_tile_aborts_session flakyHost (steppedDims 2500 1000)
           (steppedState 2500 1000) 5 1).
  - split; [discriminate | reflexivity].
  - simpl. lia.
  - vm_compute. lia.
  - intros j Hj. assert (j = 0) as -> by lia.
    split; [reflexivity | discriminate].
  - right. reflexivity.
  - lia.
Defined.

(** The second version aborts in the same way, with a rejection nobody
    catches: the restoring scroll after the loop is never reached. *)
Lemma handleCapture_failure (host : Host) (d : Looped.Dimensions)
    (fuel k : nat) (w : World) :
  0 < Looped.viewportHeight d ->
  (k < LoopedFacts.tileCount d)%nat ->
  (forall j, 0 <= j < Z.of_nat k ->
     scrollOk host j = true /\ shot host j <> None) ->
  scrollOk host (Z.of_nat k) = false \/ shot host (Z.of_nat k) = None ->
  (k < fuel)%nat ->
  Looped.handleCapture host d fuel w =
  Rejected (LoopedFacts.failedAt host d (Z.of_nat k)
              (LoopedFacts.tiles host d k 0
                 {| Looped.screenshots := []; Looped.world := w |})).
Proof.
  intros Hv Hk Hs Hfail Hf. unfold Looped.handleCapture.
  unfold LoopedFacts.tileCount in Hk.
  rewrite (LoopedFacts.captureLoop_failure host d k); try assumption.
  - reflexivity.
  - intros j Hj. rewrite jsLt_ceilDiv by exact Hv. apply Z.ltb_lt.
    apply (ceiling_lt_iff _ _ j); lia.
Qed.

(** The second version restores the scroll offset: after the last tile it scrolls
    the page back to the offset the measuring script found it at. *)
Lemma handleCapture_restores (host : Host) (p : Page) (fuel : nat) :
  reliable host -> restoreOk host = true -> injectOk host = true ->
  0 < innerHeight p ->
  (LoopedFacts.tileCount (Looped.getPageDimensions p) <= fuel)%nat ->
  exists s',
    Looped.session host fuel p = Settled s' /\
    pageScrollY (Looped.world s') = windowScrollY p.
Proof.
  intros Hh Hre Hin Hv Hf. unfold Looped.session, Looped.handleCapture.
  rewrite LoopedFacts.captureLoop_reliable by assumption.
  unfold Looped.finish. rewrite Hre, Hin.
  destruct (Looped.combineScreenshots _ _ _); eexists; split; reflexivity.
Qed.

(** A capture of the first version that nothing interrupts leaves the
    page at the offset of its last tile. *)
Lemma beginCapture_leaves_page_at_last_tile
    (host : Host) (d : Stepped.Dimensions) (s : Stepped.Background) (fuel : nat) :
  reliable host -> SteppedFacts.ready d s ->
  2 <= Stepped.viewportHeight d ->
  (SteppedFacts.tileCount Stepped.overlap d <= fuel)%nat ->
  exists s',
    Stepped.beginCapture host fuel s = Settled s' /\
    pageScrollY (Stepped.world s') =
      (Z.of_nat (SteppedFacts.tileCount Stepped.overlap d) - 1)
      * Stepped.scrollStep (Stepped.viewportHeight d).
Proof.
  intros Hh Hr Hv Hf.
  pose proof (scrollStep_pos _ Hv) as Hs.
  eexists. split.
  - unfold Stepped.beginCapture.
    apply (SteppedFacts.beginCaptureAt_reliable host Stepped.overlap d fuel s Hh Hr);
      [unfold Stepped.scrollStep in Hs; lia | exact Hf].
  - rewrite SteppedFacts.processScreenshots_pageScrollY.
    assert (Hn : (1 <= SteppedFacts.tileCount Stepped.overlap d)%nat)
      by (unfold SteppedFacts.tileCount; lia).
    destruct (SteppedFacts.tileCount Stepped.overlap d) as [| k]; [lia |].
    rewrite SteppedFacts.tiles_pageScrollY by (intros j _; apply Hh).
    unfold Stepped.scrollStep. f_equal. lia.
Qed.

(** C8.  After a successful session the page is to be back at the offset
    the measuring script recorded.  [measurePage] records
    [originalScrollPos], but the first version never reads it: whatever
    offset the page was at, the session leaves it at the offset of the
    last tile. *)
Theorem stepped_session_leaves_page_at_last_tile
    (host : Host) (tab : Z) (p : Page) (fuel : nat) :
  reliable host ->
  2 <= innerHeight p ->
  (SteppedFacts.tileCount Stepped.overlap (Stepped.measurePage p) <= fuel)%nat ->
  exists s',
    Stepped.session host fuel tab p = Settled s' /\
    Stepped.originalScrollPos (Stepped.measurePage p) = windowScrollY p /\
    pageScrollY (Stepped.world s') =
      (Z.of_nat (SteppedFacts.tileCount Stepped.overlap (Stepped.measurePage p)) - 1)
      * Stepped.scrollStep (innerHeight p).
Proof.
  intros Hh Hv Hf. unfold Stepped.session.
  destruct (beginCapture_leaves_page_at_last_tile host (Stepped.measurePage p)
              {| Stepped.currentTab := Some tab; Stepped.screenshots := [];
                 Stepped.dimensions := Some (Stepped.measurePage p);
                 Stepped.world := worldOf p |} fuel)
    as [s' [Hrun Hpos]]; try assumption.
  - split; [discriminate | reflexivity].
  - exists s'. split; [exact Hrun |]. split; [reflexivity | exact Hpos].
Qed.

Lemma stepped_session_leaves_page_at_last_tile_witness :
  (exists s',
     Stepped.session goodHost 3 1 (pageOf 2500 1000 50) = Settled s' /\
     Stepped.originalScrollPos (Stepped.measurePage (pageOf 2500 1000 50)) = 50 /\
     pageScrollY (Stepped.world s') = (3 - 1) * Stepped.scrollStep 1000) /\
  (3 - 1) * Stepped.scrollStep 1000 = 1800.
Proof.
  split; [| reflexivity].
  apply (stepped_session_leaves_page_at_last_tile goodHost 1
           (pageOf 2500 1000 50) 3).
  - intros i. split; [reflexivity | discriminate].
  - simpl. lia.
  - vm_compute. lia.
Defined.

(** C9.  For a page of positive height: when [viewportHeight >= 2], so
    that the step is at least 1, the chain of [captureCurrentViewport]
    ends within [ceil (height / scrollStep)] calls, whatever the host
    answers, having captured at most that many tiles; when
    [viewportHeight] is 0 or 1 the step is 0 and, as long as the host
    serves every call, the chain never ends. *)
Theorem capture_chain_termination
    (d : Stepped.Dimensions) (s : Stepped.Background) :
  SteppedFacts.ready d s ->
  0 < Stepped.height d ->
  (2 <= Stepped.viewportHeight d ->
   forall host : Host,
   exists s',
     Stepped.captureCurrentViewport host
       (Z.to_nat (ceiling (Stepped.height d)
                    (Stepped.scrollStep (Stepped.viewportHeight d)))) 0 s
     = Settled s' /\
     (List.length (Stepped.screenshots s') <=
      List.length (Stepped.screenshots s) +
      Z.to_nat (ceiling (Stepped.height d)
                  (Stepped.scrollStep (Stepped.viewportHeight d))))%nat) /\
  (0 <= Stepped.viewportHeight d <= 1 ->
   Stepped.scrollStep (Stepped.viewportHeight d) = 0 /\
   forall (host : Host) (fuel : nat),
     reliable host ->
     Stepped.captureCurrentViewport host fuel 0 s = Waiting).
Proof.
  intros Hr Hpos. split.
  - intros Hv host.
    pose proof (scrollStep_pos _ Hv) as Hs.
    pose proof (ceiling_pos (Stepped.height d)
                  (Stepped.scrollStep (Stepped.viewportHeight d))
                  ltac:(lia) Hpos) as Hc.
    unfold Stepped.captureCurrentViewport.
    apply (SteppedFacts.captureAt_settles host Stepped.overlap d); try assumption.
    + fold (Stepped.scrollStep (Stepped.viewportHeight d)). lia.
    + lia.
    + fold (Stepped.scrollStep (Stepped.viewportHeight d)). lia.
    + lia.
  - intros Hv. pose proof (scrollStep_zero _ Hv) as Hs.
    split; [exact Hs |].
    intros host fuel Hh. unfold Stepped.captureCurrentViewport.
    now apply (SteppedFacts.captureAt_diverges host Stepped.overlap d).
Qed.

Lemma capture_chain_termination_witness :
  (exists s',
     Stepped.captureCurrentViewport flakyHost
       (Z.to_nat (ceiling 2500 (Stepped.scrollStep 1000))) 0
       (steppedState 2500 1000) = Settled s' /\
     (List.length (Stepped.screenshots s') <=
      0 + Z.to_nat (ceiling 2500 (Stepped.scrollStep 1000)))%nat) /\
  (Stepped.scrollStep 1 = 0 /\
   Stepped.captureCurrentViewport goodHost 1000 0 (steppedState 5 1) = Waiting).
Proof.
  assert (Hr1 : SteppedFacts.ready (steppedDims 2500 1000) (steppedState 2500 1000))
    by (split; [discriminate | reflexivity]).
  assert (Hr2 : SteppedFacts.ready (steppedDims 5 1) (steppedState 5 1))
    by (split; [discriminate | reflexivity]).
  split.
  - apply (proj1 (capture_chain_termination (steppedDims 2500 1000)
                    (steppedState 2500 1000) Hr1 ltac:(simpl; lia))).
    simpl. lia.
  - destruct (proj2 (capture_chain_termination (steppedDims 5 1)
                       (steppedState 5 1) Hr2 ltac:(simpl; lia))) as [Hs Hw].
    + simpl. lia.
    + split; [exact Hs |]. apply Hw.
      intros i. split; [reflexivity | discriminate].
Defined.

(** The loop of the second version behaves alike with its own step, the
    whole viewport: it ends after [ceil (height / viewportHeight)] rounds,
    and with a viewport height of 0 it never ends. *)
Lemma captureLoop_termination (host : Host) (d : Looped.Dimensions)
    (s : Looped.Capture) :
  reliable host -> 0 < Looped.height d ->
  (0 < Looped.viewportHeight d ->
   Looped.captureLoop host d (LoopedFacts.tileCount d) 0 s =
   Settled (LoopedFacts.tiles host d (LoopedFacts.tileCount d) 0 s)) /\
  (Looped.viewportHeight d = 0 ->
   forall (fuel : nat) (i : Z), Looped.captureLoop host d fuel i s = Waiting).
Proof.
  intros Hh Hpos. split.
  - intros Hv. now apply LoopedFacts.captureLoop_reliable.
  - intros Hv fuel. revert s.
    assert (Hlt : forall i, jsLt i (ceilDiv (Looped.height d) (Looped.viewportHeight d)) = true).
    { intros i. rewrite Hv. unfold ceilDiv. simpl.
      destruct (Z.eqb_spec (Looped.height d) 0); [lia |].
      destruct (Z.ltb_spec 0 (Looped.height d)); [reflexivity | lia]. }
    induction fuel as [| fuel IH]; intros s i.
    + apply LoopedFacts.captureLoop_starved, Hlt.
    + rewrite LoopedFacts.captureLoop_unfold by apply Hlt.
      destruct (Hh i) as [Hsc Hsh]. rewrite Hsc.
      destruct (shot host i) as [url |]; [apply IH | congruence].
Qed.

(** C10.  Whatever the tiles and their placements, the composite has
    exactly the page's width and height; what a tile would put beyond the
    bottom (or any other) edge is not part of it.  For the first version
    this holds for every list of tiles; the second version yields a
    composite when every tile decodes. *)
Theorem composite_has_page_size :
  (forall (shots : list Stepped.Screenshot) (d : Stepped.Dimensions) (w : World),
   exists img,
     download (Stepped.processImages shots d w) = Some (Png img) /\
     naturalWidth img = Stepped.width d /\
     naturalHeight img = Stepped.height d /\
     forall x y,
       ~ (0 <= x < Stepped.width d /\ 0 <= y < Stepped.height d) ->
       pixelAt img x y = transparent) /\
  (forall (shots : list Looped.Screenshot) (width height : Z),
     (forall s, In s shots -> decode (Looped.dataUrl s) <> None) ->
     exists img,
       Looped.combineScreenshots shots width height = Settled (Png img) /\
       naturalWidth img = width /\
       naturalHeight img = height /\
       forall x y,
         ~ (0 <= x < width /\ 0 <= y < height) ->
         pixelAt img x y = transparent).
Proof.
  split.
  - intros shots d w. eexists. split; [reflexivity |].
    destruct (processCanvas_size shots d w) as [Hw Hh].
    simpl. repeat split; try assumption.
    intros x y Hout. apply getPixel_outside. now rewrite Hw, Hh.
  - intros shots width height Hd. unfold Looped.combineScreenshots.
    rewrite processScreenshots_settled by exact Hd.
    eexists. split; [reflexivity |].
    destruct (drawAll_size (loopedTiles shots) (Looped.blankCanvas width height))
      as [Hw Hh].
    simpl. rewrite Hw, Hh. repeat split.
    intros x y Hout. apply getPixel_outside. now rewrite Hw, Hh.
Qed.

(** One tile hanging 500 rows over the bottom edge of a 800 x 1500 page. *)
Definition overhangingShots : list Looped.Screenshot :=
  [ {| Looped.dataUrl := Png (solid 800 1000 gray); Looped.yPosition := 1000 |} ].

Lemma composite_has_page_size_witness :
  exists img,
    Looped.combineScreenshots overhangingShots 800 1500 = Settled (Png img) /\
    naturalWidth img = 800 /\
    naturalHeight img = 1500 /\
    forall x y,
      ~ (0 <= x < 800 /\ 0 <= y < 1500) -> pixelAt img x y = transparent.
Proof.
  apply (proj2 composite_has_page_size overhangingShots 800 1500).
  intros s [<- | []]. discriminate.
Defined.

(** * The rest of the script *)

(** ** The download request and the listeners *)





(** The listeners of the first version. *)
Module SteppedListeners.
Import Stepped.




End SteppedListeners.

(** ** File names *)








(** ** Which tile a pixel shows *)

(** The tile drawn last among those over the pixel [(x, y)]. *)
Fixpoint topTile (tiles : list (Image * Z)) (x y : Z) : option (Image * Z) :=
  match tiles with
  | [] => None
  | t :: rest =>
      match topTile rest x y with
      | Some u => Some u
      | None =>
          if inRect 0 (snd t) (naturalWidth (fst t)) (naturalHeight (fst t)) x y
          then Some t
          else None
      end
  end.

Lemma sourceOver_opaque (src dst : Color) :
  alpha src = 255 -> sourceOver src dst = src.
Proof.
  intros H. unfold sourceOver. rewrite H. reflexivity.
Qed.

Lemma topTile_none (tiles : list (Image * Z)) (x y : Z) :
  topTile tiles x y = None ->
  forall t, In t tiles ->
    inRect 0 (snd t) (naturalWidth (fst t)) (naturalHeight (fst t)) x y = false.
Proof.
  induction tiles as [| u rest IH]; intros H t Hin; [destruct Hin |].
  simpl in H. destruct (topTile rest x y) as [v |] eqn:E; [discriminate |].
  destruct Hin as [<- | Hin].
  - destruct (inRect 0 (snd u) (naturalWidth (fst u)) (naturalHeight (fst u)) x y);
      [discriminate | reflexivity].
  - now apply IH.
Qed.

Lemma topTile_some (tiles : list (Image * Z)) (x y : Z) (t : Image * Z) :
  topTile tiles x y = Some t ->
  In t tiles /\
  inRect 0 (snd t) (naturalWidth (fst t)) (naturalHeight (fst t)) x y = true.
Proof.
  induction tiles as [| u rest IH]; intros H; [discriminate |].
  simpl in H. destruct (topTile rest x y) as [v |] eqn:E.
  - destruct (IH H) as [Hin Hrect]. split; [now right | exact Hrect].
  - destruct (inRect 0 (snd u) (naturalWidth (fst u)) (naturalHeight (fst u)) x y)
      eqn:R; [| discriminate].
    injection H as <-. split; [now left | exact R].
Qed.

(** No tile over the pixel: the canvas keeps what it had there. *)
Lemma drawAll_bare (tiles : list (Image * Z)) (c : Canvas) (x y : Z) :
  topTile tiles x y = None ->
  bitmap (drawAll tiles c) x y = bitmap c x y.
Proof.
  revert c. induction tiles as [| [img dy] rest IH]; intros c H; simpl in *.
  - reflexivity.
  - destruct (topTile rest x y) as [u |]; [discriminate |].
    rewrite IH by reflexivity. simpl.
    destruct (inRect 0 dy (naturalWidth img) (naturalHeight img) x y);
      [discriminate | reflexivity].
Qed.

(** An opaque pixel of the tile drawn last over [(x, y)] is what the
    canvas shows there. *)
Lemma drawAll_top (tiles : list (Image * Z)) (c : Canvas) (x y : Z)
    (tile : Image) (dy : Z) :
  topTile tiles x y = Some (tile, dy) ->
  alpha (pixelAt tile x (y - dy)) = 255 ->
  bitmap (drawAll tiles c) x y = pixelAt tile x (y - dy).
Proof.
  revert c. induction tiles as [| [img dy0] rest IH]; intros c H Ha; simpl in *.
  - discriminate.
  - destruct (topTile rest x y) as [u |] eqn:E.
    + apply IH; assumption.
    + destruct (inRect 0 dy0 (naturalWidth img) (naturalHeight img) x y) eqn:R;
        [| discriminate].
      injection H as -> ->.
      rewrite drawAll_bare by exact E. simpl. rewrite R, Z.sub_0_r.
      now apply sourceOver_opaque.
Qed.

(** X2.  In the composite of [processImages] a pixel of the page is white
    when no decodable tile lies over it, and shows the tile drawn last
    among the decodable tiles lying over it, at the row counted from that
    tile's offset, when that tile is opaque there (as a screenshot is):
    tiles that do not decode leave no trace and later tiles cover earlier
    ones. *)
Theorem processImages_last_tile_wins
    (shots : list Stepped.Screenshot) (d : Stepped.Dimensions) (w : World)
    (x y : Z) :
  0 <= x < Stepped.width d -> 0 <= y < Stepped.height d ->
  exists img,
    download (Stepped.processImages shots d w) = Some (Png img) /\
    (topTile (steppedTiles shots) x y = None -> pixelAt img x y = white) /\
    (forall tile dy,
       topTile (steppedTiles shots) x y = Some (tile, dy) ->
       alpha (pixelAt tile x (y - dy)) = 255 ->
       pixelAt img x y = pixelAt tile x (y - dy)).
Proof.
  intros Hx Hy. eexists. split; [reflexivity |].
  destruct (processCanvas_size shots d w) as [Hw Hh].
  cbn [pixelAt]. rewrite getPixel_inside by lia.
  rewrite processCanvas_drawAll. split.
  - intros Hnone. rewrite drawAll_bare by exact Hnone.
    now apply whiteCanvas_white.
  - intros tile dy Htop Ha. now apply drawAll_top.
Qed.

Definition crimson : Color := RGBA 255 0 0 255.

(** Two overlapping tiles with a corrupt one between them. *)
Definition overlappingShots : list Stepped.Screenshot :=
  [ {| Stepped.dataUrl := Png (solid 800 1000 gray); Stepped.scrollY := 0 |};
    {| Stepped.dataUrl := Corrupt; Stepped.scrollY := 450 |};
    {| Stepped.dataUrl := Png (solid 800 1000 crimson); Stepped.scrollY := 900 |} ].

Lemma processImages_last_tile_wins_witness :
  exists img,
    download (Stepped.processImages overlappingShots (steppedDims 1900 1000)
                startWorld) = Some (Png img) /\
    pixelAt img 10 950 = crimson.
Proof.
  destruct (processImages_last_tile_wins overlappingShots (steppedDims 1900 1000)
              startWorld 10 950 ltac:(simpl; lia) ltac:(simpl; lia))
    as [img [Hd [_ Htop]]].
  exists img. split; [exact Hd |].
  apply (Htop (solid 800 1000 crimson) 900); reflexivity.
Defined.

(** The pixels of the second version's composite, when every tile
    decodes. *)
Lemma combineScreenshots_pixel
    (shots : list Looped.Screenshot) (width height x y : Z) :
  (forall s, In s shots -> decode (Looped.dataUrl s) <> None) ->
  0 <= x < width -> 0 <= y < height ->
  exists img,
    Looped.combineScreenshots shots width height = Settled (Png img) /\
    (topTile (loopedTiles shots) x y = None -> pixelAt img x y = transparent) /\
    (forall tile dy,
       topTile (loopedTiles shots) x y = Some (tile, dy) ->
       alpha (pixelAt tile x (y - dy)) = 255 ->
       pixelAt img x y = pixelAt tile x (y - dy)).
Proof.
  intros Hd Hx Hy. unfold Looped.combineScreenshots.
  rewrite processScreenshots_settled by exact Hd.
  eexists. split; [reflexivity |].
  destruct (drawAll_size (loopedTiles shots) (Looped.blankCanvas width height))
    as [Hw Hh].
  cbn [pixelAt]. rewrite getPixel_inside by (rewrite ?Hw, ?Hh; simpl; lia).
  split.
  - intros Hnone. rewrite drawAll_bare by exact Hnone. reflexivity.
  - intros tile dy Htop Ha. now apply drawAll_top.
Qed.

(** X3.  In the composite of [combineScreenshots], when every tile
    decodes, a pixel of the page is transparent when no tile lies over
    it, and shows the tile drawn last among those lying over it when that
    tile is opaque there (as a screenshot is). *)
Theorem combineScreenshots_last_tile_wins
    (shots : list Looped.Screenshot) (width height x y : Z) :
  (forall s, In s shots -> decode (Looped.dataUrl s) <> None) ->
  0 <= x < width -> 0 <= y < height ->
  exists img,
    Looped.combineScreenshots shots width height = Settled (Png img) /\
    (topTile (loopedTiles shots) x y = None -> pixelAt img x y = transparent) /\
    (forall tile dy,
       topTile (loopedTiles shots) x y = Some (tile, dy) ->
       alpha (pixelAt tile x (y - dy)) = 255 ->
       pixelAt img x y = pixelAt tile x (y - dy)).
Proof.
  intros Hd Hx Hy. unfold Looped.combineScreenshots.
  rewrite processScreenshots_settled by exact Hd.
  eexists. split; [reflexivity |].
  destruct (drawAll_size (loopedTiles shots) (Looped.blankCanvas width height))
    as [Hw Hh].
  cbn [pixelAt]. rewrite getPixel_inside by (rewrite ?Hw, ?Hh; simpl; lia).
  split.
  - intros Hnone. rewrite drawAll_bare by exact Hnone. reflexivity.
  - intros tile dy Htop Ha. now apply drawAll_top.
Qed.

(** The tiles of a 2500 high page seen through a 1000 high viewport, in
    two colours. *)
Definition clampedShots : list Looped.Screenshot :=
  [ {| Looped.dataUrl := Png (solid 800 1000 gray); Looped.yPosition := 0 |};
    {| Looped.dataUrl := Png (solid 800 1000 crimson); Looped.yPosition := 1000 |};
    {| Looped.dataUrl := Png (solid 800 1000 gray); Looped.yPosition := 1500 |} ].

Lemma combineScreenshots_last_tile_wins_witness :
  exists img,
    Looped.combineScreenshots clampedShots 800 2500 = Settled (Png img) /\
    pixelAt img 10 1700 = gray.
Proof.
  destruct (combineScreenshots_last_tile_wins clampedShots 800 2500 10 1700
              ltac:(intros s [<- | [<- | [<- | []]]]; discriminate)
              ltac:(lia) ltac:(lia))
    as [img [Hc [_ Htop]]].
  exists img. split; [exact Hc |].
  apply (Htop (solid 800 1000 gray) 1500); reflexivity.
Defined.

(** ** The first version's sessions *)

Lemma tileCount_pos (f : Q) (d : Stepped.Dimensions) :
  exists k, SteppedFacts.tileCount f d = S k.
Proof.
  unfold SteppedFacts.tileCount.
  exists (Z.to_nat (Z.max 1 (ceiling (Stepped.height d)
                    (Stepped.scrollStepAt f (Stepped.viewportHeight d))) - 1)).
  lia.
Qed.

(** The chain up to the first tile the host fails on. *)
Lemma beginCapture_first_failure
    (host : Host) (d : Stepped.Dimensions) (s : Stepped.Background)
    (fuel k : nat) :
  SteppedFacts.ready d s ->
  2 <= Stepped.viewportHeight d ->
  (k < SteppedFacts.tileCount Stepped.overlap d)%nat ->
  (forall j, 0 <= j < Z.of_nat k ->
     scrollOk host j = true /\ shot host j <> None) ->
  scrollOk host (Z.of_nat k) = false \/ shot host (Z.of_nat k) = None ->
  (k < fuel)%nat ->
  Stepped.beginCapture host fuel s =
  Settled (SteppedFacts.failedAt host Stepped.overlap d (Z.of_nat k)
             (SteppedFacts.tiles host Stepped.overlap d k 0
                (SteppedFacts.reset s))).
Proof.
  intros Hr Hv Hk Hs Hfail Hf.
  pose proof (scrollStep_pos _ Hv) as Hst.
  unfold SteppedFacts.tileCount in Hk.
  fold (Stepped.scrollStep (Stepped.viewportHeight d)) in Hk.
  unfold Stepped.beginCapture.
  rewrite (beginCaptureAt_ready host Stepped.overlap d) by exact Hr.
  rewrite (SteppedFacts.captureAt_failure host Stepped.overlap d k);
    try assumption.
  - reflexivity.
  - intros j Hj. fold (Stepped.scrollStep (Stepped.viewportHeight d)).
    rewrite more_pos by lia. apply Z.ltb_lt.
    apply (ceiling_lt_iff _ _ (j + 1)); lia.
Qed.

(** The chain to its end on a host that serves every tile. *)
Lemma beginCapture_reliable
    (host : Host) (d : Stepped.Dimensions) (s : Stepped.Background) (fuel : nat) :
  reliable host -> SteppedFacts.ready d s ->
  2 <= Stepped.viewportHeight d ->
  (SteppedFacts.tileCount Stepped.overlap d <= fuel)%nat ->
  Stepped.beginCapture host fuel s =
  Settled (Stepped.processScreenshots host
             (SteppedFacts.tiles host Stepped.overlap d
                (SteppedFacts.tileCount Stepped.overlap d) 0
                (SteppedFacts.reset s))).
Proof.
  intros Hh Hr Hv Hf.
  pose proof (scrollStep_pos _ Hv) as Hs.
  unfold Stepped.beginCapture.
  apply (SteppedFacts.beginCaptureAt_reliable host Stepped.overlap d fuel s Hh Hr);
    [unfold Stepped.scrollStep in Hs; lia | exact Hf].
Qed.

(** X4.  Whatever the host answers and however the chain ends, the offsets
    [captureCurrentViewport] has recorded are the first multiples of the
    step, [0, step, 2 step, ...], one per call at most: a tile is never
    recorded out of order, twice or at another offset, and the tiles of an
    earlier session are gone. *)
Theorem stepped_offsets_are_step_multiples
    (host : Host) (d : Stepped.Dimensions) (s : Stepped.Background) (fuel : nat) :
  SteppedFacts.ready d s ->
  exists k,
    (k <= fuel)%nat /\
    Stepped.offsets (Stepped.beginCapture host fuel s) =
    map (fun j => j * Stepped.scrollStep (Stepped.viewportHeight d)) (indices k 0).
Proof.
  intros Hr. unfold Stepped.beginCapture.
  rewrite (beginCaptureAt_ready host Stepped.overlap d) by exact Hr.
  pose proof (SteppedRuns.captureAt_prefix host Stepped.overlap d fuel 0
                (SteppedFacts.reset s) Hr) as H.
  destruct (Stepped.captureAt host Stepped.overlap fuel 0 (SteppedFacts.reset s))
    as [s' | s' |].
  - destruct H as [k [Hk Heq]]. exists k. split; [exact Hk | exact Heq].
  - destruct H as [k [Hk Heq]]. exists k. split; [exact Hk | exact Heq].
  - exists 0%nat. split; [lia | reflexivity].
Qed.

(** A state left over from an earlier session. *)
Definition staleState : Stepped.Background :=
  {| Stepped.currentTab := Some 7;
     Stepped.screenshots := overlappingShots;
     Stepped.dimensions := Some (steppedDims 2500 1000);
     Stepped.world := startWorld |}.

Lemma stepped_offsets_are_step_multiples_witness :
  exists k,
    (k <= 5)%nat /\
    Stepped.offsets (Stepped.beginCapture flakyHost 5 staleState) =
    map (fun j => j * Stepped.scrollStep 1000) (indices k 0).
Proof.
  apply (stepped_offsets_are_step_multiples flakyHost (steppedDims 2500 1000)
           staleState 5).
  split; [discriminate | reflexivity].
Defined.

(** X5.  On a host that serves every call the first version's session
    does, in this order and nothing else: for each tile a scroll to the
    tile's multiple of the step, a wait of 200ms, a wait of 500ms and the
    capture; then, for each captured tile that does not decode, the
    console error [Failed to load image]; then, once, the download.  The
    number of tiles is [max 1 (ceil (height / step))], at least one even
    for an empty page. *)
Theorem stepped_session_log
    (host : Host) (d : Stepped.Dimensions) (s : Stepped.Background) (fuel : nat) :
  reliable host -> injectOk host = true ->
  SteppedFacts.ready d s ->
  2 <= Stepped.viewportHeight d ->
  (SteppedFacts.tileCount Stepped.overlap d <= fuel)%nat ->
  exists s',
    Stepped.beginCapture host fuel s = Settled s' /\
    rev (log (Stepped.world s')) =
      rev (log (Stepped.world s)) ++
      flat_map (steppedRound (Stepped.scrollStep (Stepped.viewportHeight d)))
               (indices (SteppedFacts.tileCount Stepped.overlap d) 0) ++
      loadFailures (Stepped.screenshots s') ++
      [Downloaded] /\
    Stepped.screenshots s' =
      map (fun j => {| Stepped.dataUrl := shotUrl host j;
                       Stepped.scrollY :=
                         j * Stepped.scrollStep (Stepped.viewportHeight d) |})
          (indices (SteppedFacts.tileCount Stepped.overlap d) 0) /\
    List.length (Stepped.screenshots s') =
      Z.to_nat (Z.max 1 (ceiling (Stepped.height d)
                           (Stepped.scrollStep (Stepped.viewportHeight d)))).
Proof.
  intros Hh Hin Hr Hv Hf.
  rewrite (beginCapture_reliable host d s fuel) by assumption.
  destruct (tileCount_pos Stepped.overlap d) as [k Hk].
  assert (Hshots : forall n i j, i <= j < i + Z.of_nat n -> shot host j <> None)
    by (intros n i j _; apply Hh).
  set (t := SteppedFacts.tiles host Stepped.overlap d
              (SteppedFacts.tileCount Stepped.overlap d) 0 (SteppedFacts.reset s)).
  assert (Hsend : Stepped.processScreenshots host t =
                  Stepped.withWorld
                    (Stepped.processImages (Stepped.screenshots t) d
                       (Stepped.world t)) t).
  { apply (SteppedRuns.processScreenshots_sends host d); try assumption.
    - apply SteppedFacts.tiles_ready. exact Hr.
    - unfold t. rewrite Hk. apply SteppedRuns.tiles_nonempty. apply Hshots. }
  assert (Hshotlist : Stepped.screenshots t =
            map (fun j => {| Stepped.dataUrl := shotUrl host j;
                             Stepped.scrollY :=
                               j * Stepped.scrollStep (Stepped.viewportHeight d) |})
                (indices (SteppedFacts.tileCount Stepped.overlap d) 0)).
  { unfold t. rewrite SteppedRuns.tiles_screenshots by apply Hshots. reflexivity. }
  eexists. split; [reflexivity |].
  rewrite Hsend. cbn [Stepped.withWorld Stepped.world Stepped.screenshots].
  split; [| split].
  - rewrite processImages_log. unfold t at 1.
    rewrite SteppedRuns.tiles_log by apply Hshots.
    rewrite <- app_assoc. reflexivity.
  - exact Hshotlist.
  - rewrite Hshotlist, length_map, indices_length. reflexivity.
Qed.

Lemma stepped_session_log_witness :
  exists s',
    Stepped.beginCapture goodHost 3 (steppedState 2500 1000) = Settled s' /\
    rev (log (Stepped.world s')) =
      [] ++
      flat_map (steppedRound (Stepped.scrollStep 1000))
               (indices (SteppedFacts.tileCount Stepped.overlap
                           (steppedDims 2500 1000)) 0) ++
      loadFailures (Stepped.screenshots s') ++
      [Downloaded] /\
    Stepped.screenshots s' =
      map (fun j => {| Stepped.dataUrl := shotUrl goodHost j;
                       Stepped.scrollY := j * Stepped.scrollStep 1000 |})
          (indices (SteppedFacts.tileCount Stepped.overlap
                      (steppedDims 2500 1000)) 0) /\
    List.length (Stepped.screenshots s') =
      Z.to_nat (Z.max 1 (ceiling 2500 (Stepped.scrollStep 1000))).
Proof.
  apply (stepped_session_log goodHost (steppedDims 2500 1000)
           (steppedState 2500 1000) 3).
  - intros i. split; [reflexivity | discriminate].
  - reflexivity.
  - split; [discriminate | reflexivity].
  - simpl. lia.
  - vm_compute. lia.
Defined.

(** X6.  The first version tells the two failures of a tile apart.  When
    the scroll of tile [k] is rejected the console gets
    [Failed to scroll to position:] and the page is where the tile before
    left it (where it was, for the first tile); when its capture is
    rejected the console gets [Failed to capture viewport:] and the page
    has been scrolled to tile [k]'s offset.  In both cases that message is
    the last thing the session does. *)
Theorem stepped_failure_kinds
    (host : Host) (d : Stepped.Dimensions) (s : Stepped.Background)
    (fuel k : nat) :
  SteppedFacts.ready d s ->
  2 <= Stepped.viewportHeight d ->
  (k < SteppedFacts.tileCount Stepped.overlap d)%nat ->
  (forall j, 0 <= j < Z.of_nat k ->
     scrollOk host j = true /\ shot host j <> None) ->
  (k < fuel)%nat ->
  (scrollOk host (Z.of_nat k) = false ->
   exists s',
     Stepped.beginCapture host fuel s = Settled s' /\
     (exists rest,
        log (Stepped.world s') =
        ConsoleError "Failed to scroll to position:" :: rest) /\
     pageScrollY (Stepped.world s') =
       match k with
       | O => pageScrollY (Stepped.world s)
       | S k' => Z.of_nat k' * Stepped.scrollStep (Stepped.viewportHeight d)
       end) /\
  (scrollOk host (Z.of_nat k) = true -> shot host (Z.of_nat k) = None ->
   exists s',
     Stepped.beginCapture host fuel s = Settled s' /\
     (exists rest,
        log (Stepped.world s') =
        ConsoleError "Failed to capture viewport:" :: rest) /\
     pageScrollY (Stepped.world s') =
       Z.of_nat k * Stepped.scrollStep (Stepped.viewportHeight d)).
Proof.
  intros Hr Hv Hk Hs Hf. split.
  - intros Hsc.
    rewrite (beginCapture_first_failure host d s fuel k) by (assumption || tauto).
    eexists. split; [reflexivity |].
    unfold SteppedFacts.failedAt. rewrite Hsc. simpl. split; [eauto |].
    destruct k as [| k']; [reflexivity |].
    rewrite SteppedFacts.tiles_pageScrollY by (intros j Hj; apply Hs; lia).
    reflexivity.
  - intros Hsc Hsh.
    rewrite (beginCapture_first_failure host d s fuel k) by (assumption || tauto).
    eexists. split; [reflexivity |].
    unfold SteppedFacts.failedAt. rewrite Hsc. simpl. split; [eauto |].
    reflexivity.
Qed.

(** A host whose scroll to the third tile (index 2) is rejected. *)
Definition stuckHost : Host :=
  {| scrollOk := fun i => negb (i =? 2);
     shot := fun _ => Some (Png (solid 800 1000 gray));
     restoreOk := true;
     injectOk := true |}.

Lemma stepped_failure_kinds_witness :
  (exists s',
     Stepped.beginCapture stuckHost 5 (steppedState 2500 1000) = Settled s' /\
     (exists rest,
        log (Stepped.world s') =
        ConsoleError "Failed to scroll to position:" :: rest) /\
     pageScrollY (Stepped.world s') = 1 * Stepped.scrollStep 1000) /\
  (exists s',
     Stepped.beginCapture flakyHost 5 (steppedState 2500 1000) = Settled s' /\
     (exists rest,
        log (Stepped.world s') =
        ConsoleError "Failed to capture viewport:" :: rest) /\
     pageScrollY (Stepped.world s') = 1 * Stepped.scrollStep 1000).
Proof.
  assert (Hr : SteppedFacts.ready (steppedDims 2500 1000) (steppedState 2500 1000))
    by (split; [discriminate | reflexivity]).
  split.
  - apply (proj1 (stepped_failure_kinds stuckHost (steppedDims 2500 1000)
                    (steppedState 2500 1000) 5 2 Hr ltac:(simpl; lia)
                    ltac:(vm_compute; lia)
                    ltac:(intros j Hj; split;
                          [assert (j = 0 \/ j = 1) as [-> | ->] by lia; reflexivity
                          | discriminate])
                    ltac:(lia))).
    reflexivity.
  - apply (proj2 (stepped_failure_kinds flakyHost (steppedDims 2500 1000)
                    (steppedState 2500 1000) 5 1 Hr ltac:(simpl; lia)
                    ltac:(vm_compute; lia)
                    ltac:(intros j Hj; assert (j = 0) as -> by lia;
                          split; [reflexivity | discriminate])
                    ltac:(lia))); reflexivity.
Defined.

(** X7.  When every tile was captured but the compositing script cannot
    be injected, the first version writes
    [Failed to process screenshots:] to the console and downloads
    nothing; the captured tiles stay in [screenshots]. *)
Theorem stepped_inject_failure_keeps_tiles
    (host : Host) (d : Stepped.Dimensions) (s : Stepped.Background) (fuel : nat) :
  reliable host -> injectOk host = false ->
  SteppedFacts.ready d s ->
  2 <= Stepped.viewportHeight d ->
  (SteppedFacts.tileCount Stepped.overlap d <= fuel)%nat ->
  exists s',
    Stepped.beginCapture host fuel s = Settled s' /\
    List.length (Stepped.screenshots s') = SteppedFacts.tileCount Stepped.overlap d /\
    download (Stepped.world s') = download (Stepped.world s) /\
    exists rest,
      log (Stepped.world s') =
      ConsoleError "Failed to process screenshots:" :: rest.
Proof.
  intros Hh Hin Hr Hv Hf.
  rewrite (beginCapture_reliable host d s fuel) by assumption.
  eexists. split; [reflexivity |].
  destruct (tileCount_pos Stepped.overlap d) as [k Hk].
  assert (Hshots : forall n i j, i <= j < i + Z.of_nat n -> shot host j <> None)
    by (intros n i j _; apply Hh).
  rewrite (SteppedRuns.processScreenshots_refused host d); try assumption.
  - simpl. split; [| split].
    + rewrite SteppedRuns.tiles_screenshots by apply Hshots.
      simpl. rewrite length_map. apply indices_length.
    + rewrite SteppedFacts.tiles_download. reflexivity.
    + eauto.
  - apply SteppedFacts.tiles_ready. exact Hr.
  - rewrite Hk. apply SteppedRuns.tiles_nonempty. apply Hshots.
Qed.

(** A host that serves every tile but refuses the compositing script. *)
Definition closedHost : Host :=
  {| scrollOk := fun _ => true;
     shot := fun _ => Some (Png (solid 800 1000 gray));
     restoreOk := true;
     injectOk := false |}.

Lemma stepped_inject_failure_keeps_tiles_witness :
  exists s',
    Stepped.beginCapture closedHost 3 (steppedState 2500 1000) = Settled s' /\
    List.length (Stepped.screenshots s') =
      SteppedFacts.tileCount Stepped.overlap (steppedDims 2500 1000) /\
    download (Stepped.world s') = None /\
    exists rest,
      log (Stepped.world s') =
      ConsoleError "Failed to process screenshots:" :: rest.
Proof.
  apply (stepped_inject_failure_keeps_tiles closedHost (steppedDims 2500 1000)
           (steppedState 2500 1000) 3).
  - intros i. split; [reflexivity | discriminate].
  - reflexivity.
  - split; [discriminate | reflexivity].
  - simpl. lia.
  - vm_compute. lia.
Defined.





(** ** More on the second version's capture loop *)

Module LoopedRuns.
Import Looped LoopedFacts.

Section Run.

Variable host : Host.
Variable d : Dimensions.

Local Abbreviation vh := (viewportHeight d).

Lemma loop_tiles_screenshots (k : nat) (i : Z) (s : Capture) :
  (forall j, i <= j < i + Z.of_nat k -> shot host j <> None) ->
  screenshots (tiles host d k i s) =
  screenshots s ++
  map (fun j => {| dataUrl := shotUrl host j; yPosition := placement d j |})
      (indices k i).
Proof.
  revert i s. induction k as [| k IH]; intros i s H.
  - simpl. now rewrite app_nil_r.
  - simpl. unfold shotUrl at 1. destruct (shot host i) as [url |] eqn:E.
    + rewrite IH by (intros j Hj; apply H; lia).
      simpl. rewrite <- app_assoc. reflexivity.
    + exfalso. apply (H i); [lia | exact E].
Qed.

Lemma loop_tiles_log (k : nat) (i : Z) (s : Capture) :
  (forall j, i <= j < i + Z.of_nat k -> shot host j <> None) ->
  rev (log (world (tiles host d k i s))) =
  rev (log (world s)) ++ flat_map (loopedRound vh) (indices k i).
Proof.
  revert i s. induction k as [| k IH]; intros i s H.
  - simpl. now rewrite app_nil_r.
  - simpl. destruct (shot host i) as [url |] eqn:E.
    + rewrite IH by (intros j Hj; apply H; lia).
      simpl. rewrite <- !app_assoc. reflexivity.
    + exfalso. apply (H i); [lia | exact E].
Qed.

(** Whatever the host answers, the loop records the clamped placements
    from its index on, one per round at most. *)
Lemma captureLoop_prefix (fuel : nat) : forall (i : Z) (s : Capture),
  match captureLoop host d fuel i s with
  | Settled s' | Rejected s' =>
      exists k, (k <= fuel)%nat /\
        map yPosition (screenshots s') =
        map yPosition (screenshots s) ++ map (placement d) (indices k i)
  | Waiting => True
  end.
Proof.
  induction fuel as [| fuel IH]; intros i s.
  - destruct (jsLt i (ceilDiv (height d) vh)) eqn:E.
    + rewrite captureLoop_starved by exact E. exact I.
    + rewrite captureLoop_exit by exact E.
      exists 0%nat. split; [lia |]. simpl. now rewrite app_nil_r.
  - destruct (jsLt i (ceilDiv (height d) vh)) eqn:E.
    + rewrite captureLoop_unfold by exact E.
      destruct (scrollOk host i) eqn:Hsc.
      * destruct (shot host i) as [url |] eqn:Hsh.
        -- specialize (IH (i + 1) (afterTile d i url s)).
           destruct (captureLoop host d fuel (i + 1) (afterTile d i url s))
             as [s' | s' |]; try exact I;
             destruct IH as [k [Hk Heq]]; exists (S k);
             (split; [lia |]); rewrite Heq; simpl;
             rewrite map_app, <- app_assoc; reflexivity.
        -- exists 0%nat. split; [lia |].
           unfold failedAt. rewrite Hsc. simpl. now rewrite app_nil_r.
      * exists 0%nat. split; [lia |].
        unfold failedAt. rewrite Hsc. simpl. now rewrite app_nil_r.
    + rewrite captureLoop_exit by exact E.
      exists 0%nat. split; [lia |]. simpl. now rewrite app_nil_r.
Qed.

(** Whatever the host answers, a positive viewport height ends the loop
    within [ceil (height / viewportHeight)] rounds. *)
Lemma captureLoop_halts (fuel : nat) : forall (i : Z) (s : Capture),
  0 < vh -> ceiling (height d) vh - i <= Z.of_nat fuel ->
  captureLoop host d fuel i s <> Waiting.
Proof.
  induction fuel as [| fuel IH]; intros i s Hv Hc.
  - rewrite captureLoop_exit; [discriminate |].
    rewrite jsLt_ceilDiv by exact Hv. apply Z.ltb_ge.
    pose proof (ceiling_lt_iff (height d) vh i Hv). lia.
  - destruct (jsLt i (ceilDiv (height d) vh)) eqn:E.
    + rewrite captureLoop_unfold by exact E.
      destruct (scrollOk host i); [| discriminate].
      destruct (shot host i); [| discriminate].
      apply IH; [exact Hv | lia].
    + rewrite captureLoop_exit by exact E. discriminate.
Qed.

Lemma handleCapture_reliable (fuel : nat) (w : World) :
  reliable host -> 0 < vh -> (tileCount d <= fuel)%nat ->
  handleCapture host d fuel w =
  finish host d (tiles host d (tileCount d) 0 {| screenshots := []; world := w |}).
Proof.
  intros Hh Hv Hf. unfold handleCapture.
  now rewrite captureLoop_reliable.
Qed.

End Run.

End LoopedRuns.

(** The second version's composite, when every tile decodes. *)
Lemma composite_settles (shots : list Looped.Screenshot) (width height : Z) :
  (forall s, In s shots -> decode (Looped.dataUrl s) <> None) ->
  exists img,
    Looped.combineScreenshots shots width height = Settled (Png img) /\
    naturalWidth img = width /\ naturalHeight img = height.
Proof.
  intros Hd. unfold Looped.combineScreenshots.
  rewrite processScreenshots_settled by exact Hd.
  eexists. split; [reflexivity |].
  destruct (drawAll_size (loopedTiles shots) (Looped.blankCanvas width height))
    as [Hw Hh].
  simpl. rewrite Hw, Hh. split; reflexivity.
Qed.

(** ** The second version's sessions *)

(** X9.  Whatever the host answers and however [handleCapture] ends, the
    placements it has recorded are [min (i * viewportHeight)
    (height - viewportHeight)] for [i = 0, 1, ...], one per round at most,
    and none of them lets its tile reach below the bottom of the page. *)
Theorem looped_tiles_never_overhang
    (host : Host) (d : Looped.Dimensions) (fuel : nat) (w : World) :
  exists k,
    (k <= fuel)%nat /\
    Looped.placements (Looped.handleCapture host d fuel w) =
      map (fun i => Z.min (i * Looped.viewportHeight d)
                          (Looped.height d - Looped.viewportHeight d))
          (indices k 0) /\
    Forall (fun p => p + Looped.viewportHeight d <= Looped.height d)
           (Looped.placements (Looped.handleCapture host d fuel w)).
Proof.
  assert (Hall : forall k,
             Forall (fun p => p + Looped.viewportHeight d <= Looped.height d)
               (map (LoopedFacts.placement d) (indices k 0))).
  { intros k. apply Forall_forall. intros p Hp.
    apply in_map_iff in Hp. destruct Hp as [j [<- _]].
    unfold LoopedFacts.placement. lia. }
  unfold Looped.handleCapture.
  pose proof (LoopedRuns.captureLoop_prefix host d fuel 0
                {| Looped.screenshots := []; Looped.world := w |}) as H.
  destruct (Looped.captureLoop host d fuel 0
              {| Looped.screenshots := []; Looped.world := w |}) as [s' | s' |].
  - destruct H as [k [Hk Heq]]. exists k. rewrite finish_placements, Heq.
    split; [exact Hk | split; [reflexivity | apply Hall]].
  - destruct H as [k [Hk Heq]]. exists k. simpl. rewrite Heq.
    split; [exact Hk | split; [reflexivity | apply Hall]].
  - exists 0%nat. split; [lia | split; [reflexivity | constructor]].
Qed.

(** X10.  For a page of positive height, when nothing interrupts
    [handleCapture] its placements increase strictly and the bottom edge of
    the last tile is the bottom of the page, also when the page is lower
    than the viewport. *)
Theorem looped_last_tile_ends_at_page_bottom
    (host : Host) (d : Looped.Dimensions) (fuel : nat) (w : World) :
  reliable host ->
  0 < Looped.viewportHeight d -> 0 < Looped.height d ->
  (LoopedFacts.tileCount d <= fuel)%nat ->
  StronglySorted Z.lt (Looped.placements (Looped.handleCapture host d fuel w)) /\
  last (Looped.placements (Looped.handleCapture host d fuel w)) 0
    + Looped.viewportHeight d = Looped.height d.
Proof.
  intros Hh Hv Hpos Hf. rewrite placements_reliable by assumption.
  unfold LoopedFacts.tileCount.
  pose proof (ceiling_spec (Looped.height d) (Looped.viewportHeight d) Hv) as Hc.
  set (n := ceiling (Looped.height d) (Looped.viewportHeight d)) in *.
  assert (Hn : 1 <= n) by nia.
  split.
  - apply sorted_map_indices. intros a b Ha Hb.
    unfold LoopedFacts.placement. nia.
  - replace (Z.to_nat n) with (S (Z.to_nat (n - 1))) by lia.
    rewrite last_map_indices. unfold LoopedFacts.placement. nia.
Qed.

Lemma looped_last_tile_ends_at_page_bottom_witness :
  StronglySorted Z.lt
    (Looped.placements
       (Looped.handleCapture goodHost (loopedDims 800 2500 1000) 3 startWorld)) /\
  last (Looped.placements
          (Looped.handleCapture goodHost (loopedDims 800 2500 1000) 3 startWorld)) 0
    + 1000 = 2500.
Proof.
  apply (looped_last_tile_ends_at_page_bottom goodHost (loopedDims 800 2500 1000)
           3 startWorld).
  - intros i. split; [reflexivity | discriminate].
  - simpl. lia.
  - simpl. lia.
  - vm_compute. lia.
Defined.

(** X11.  On a host that serves every call [handleCapture] does, in this
    order and nothing else: for each tile a scroll to [i * viewportHeight]
    (the scroll target is not clamped, only the placement is), a wait of
    100ms and the capture; then the scroll back to [originalScrollPos];
    then the download, if the compositor gets to its end.  The number of
    tiles is [ceil (height / viewportHeight)], none for an empty page. *)
Theorem looped_session_log
    (host : Host) (d : Looped.Dimensions) (fuel : nat) (w : World) :
  reliable host -> restoreOk host = true -> injectOk host = true ->
  0 < Looped.viewportHeight d ->
  (LoopedFacts.tileCount d <= fuel)%nat ->
  exists s',
    Looped.handleCapture host d fuel w = Settled s' /\
    List.length (Looped.screenshots s') =
      Z.to_nat (ceiling (Looped.height d) (Looped.viewportHeight d)) /\
    rev (log (Looped.world s')) =
      rev (log w) ++
      flat_map (loopedRound (Looped.viewportHeight d))
               (indices (LoopedFacts.tileCount d) 0) ++
      [Scrolled (Looped.originalScrollPos d)] ++
      match Looped.combineScreenshots (Looped.screenshots s')
              (Looped.width d) (Looped.height d) with
      | Settled _ => [Downloaded]
      | _ => []
      end.
Proof.
  intros Hh Hre Hin Hv Hf.
  rewrite LoopedRuns.handleCapture_reliable by assumption.
  assert (Hshots : forall n i j, i <= j < i + Z.of_nat n -> shot host j <> None)
    by (intros n i j _; apply Hh).
  unfold Looped.finish. rewrite Hre, Hin.
  destruct (Looped.combineScreenshots _ _ _) eqn:E;
    eexists; (split; [reflexivity |]); cbn [Looped.screenshots Looped.world];
    rewrite E; (split;
      [ rewrite LoopedRuns.loop_tiles_screenshots by apply Hshots;
        simpl; rewrite length_map; apply indices_length
      | simpl; rewrite LoopedRuns.loop_tiles_log by apply Hshots;
        simpl; rewrite <- ?app_assoc; reflexivity ]).
Qed.

Lemma looped_session_log_witness :
  exists s',
    Looped.handleCapture goodHost (loopedDims 800 2500 1000) 3 startWorld
      = Settled s' /\
    List.length (Looped.screenshots s') = Z.to_nat (ceiling 2500 1000) /\
    rev (log (Looped.world s')) =
      [] ++
      flat_map (loopedRound 1000)
               (indices (LoopedFacts.tileCount (loopedDims 800 2500 1000)) 0) ++
      [Scrolled 50] ++
      match Looped.combineScreenshots (Looped.screenshots s') 800 2500 with
      | Settled _ => [Downloaded]
      | _ => []
      end.
Proof.
  apply (looped_session_log goodHost (loopedDims 800 2500 1000) 3 startWorld).
  - intros i. split; [reflexivity | discriminate].
  - reflexivity.
  - reflexivity.
  - simpl. lia.
  - vm_compute. lia.
Defined.

(** X12.  When tile [k] is the first whose scroll or capture is rejected,
    [handleCapture] ends in that rejection: it has recorded the [k] tiles
    before, downloads nothing, and the last thing it did to the page is
    the scroll of tile [k] and the wait after it (or, when that scroll was
    the rejected call, the capture of the tile before): there is no scroll
    back to [originalScrollPos]. *)
Theorem looped_failure_rejects
    (host : Host) (d : Looped.Dimensions) (fuel k : nat) (w : World) :
  0 < Looped.viewportHeight d ->
  (k < LoopedFacts.tileCount d)%nat ->
  (forall j, 0 <= j < Z.of_nat k ->
     scrollOk host j = true /\ shot host j <> None) ->
  scrollOk host (Z.of_nat k) = false \/ shot host (Z.of_nat k) = None ->
  (k < fuel)%nat ->
  exists s',
    Looped.handleCapture host d fuel w = Rejected s' /\
    List.length (Looped.screenshots s') = k /\
    download (Looped.world s') = download w /\
    rev (log (Looped.world s')) =
      rev (log w) ++
      flat_map (loopedRound (Looped.viewportHeight d)) (indices k 0) ++
      (if scrollOk host (Z.of_nat k)
       then [Scrolled (Z.of_nat k * Looped.viewportHeight d); Waited 100]
       else []).
Proof.
  intros Hv Hk Hs Hfail Hf.
  rewrite (handleCapture_failure host d fuel k w) by assumption.
  assert (Hshots : forall j, 0 <= j < 0 + Z.of_nat k -> shot host j <> None)
    by (intros j Hj; apply Hs; lia).
  eexists. split; [reflexivity |].
  unfold LoopedFacts.failedAt.
  destruct (scrollOk host (Z.of_nat k));
    cbn [Looped.screenshots Looped.world];
    (split; [| split]).
  - rewrite LoopedRuns.loop_tiles_screenshots by exact Hshots.
    simpl. rewrite length_map. apply indices_length.
  - simpl. rewrite LoopedFacts.loop_tiles_download. reflexivity.
  - simpl. rewrite LoopedRuns.loop_tiles_log by exact Hshots.
    simpl. rewrite <- !app_assoc. reflexivity.
  - rewrite LoopedRuns.loop_tiles_screenshots by exact Hshots.
    simpl. rewrite length_map. apply indices_length.
  - rewrite LoopedFacts.loop_tiles_download. reflexivity.
  - rewrite LoopedRuns.loop_tiles_log by exact Hshots.
    simpl. now rewrite app_nil_r.
Qed.

Lemma looped_failure_rejects_witness :
  exists s',
    Looped.handleCapture flakyHost (loopedDims 800 2500 1000) 5 startWorld
      = Rejected s' /\
    List.length (Looped.screenshots s') = 1%nat /\
    download (Looped.world s') = None /\
    rev (log (Looped.world s')) =
      [] ++ flat_map (loopedRound 1000) (indices 1 0) ++
      [Scrolled (1 * 1000); Waited 100].
Proof.
  apply (looped_failure_rejects flakyHost (loopedDims 800 2500 1000) 5 1
           startWorld).
  - simpl. lia.
  - vm_compute. lia.
  - intros j Hj. assert (j = 0) as -> by lia.
    split; [reflexivity | discriminate].
  - right. reflexivity.
  - lia.
Defined.

(** X13.  After all tiles were captured, [handleCapture] can still lose
    them: when the scroll back to [originalScrollPos] is rejected it ends
    in that rejection before the compositor is injected, and when the
    injection of the compositor is rejected the page has been scrolled
    back; nothing is downloaded in either case. *)
Theorem looped_late_failure_loses_capture
    (host : Host) (d : Looped.Dimensions) (fuel : nat) (w : World) :
  reliable host ->
  0 < Looped.viewportHeight d ->
  (LoopedFacts.tileCount d <= fuel)%nat ->
  (restoreOk host = false ->
   exists s',
     Looped.handleCapture host d fuel w = Rejected s' /\
     List.length (Looped.screenshots s') = LoopedFacts.tileCount d /\
     download (Looped.world s') = download w /\
     rev (log (Looped.world s')) =
       rev (log w) ++
       flat_map (loopedRound (Looped.viewportHeight d))
                (indices (LoopedFacts.tileCount d) 0)) /\
  (restoreOk host = true -> injectOk host = false ->
   exists s',
     Looped.handleCapture host d fuel w = Rejected s' /\
     List.length (Looped.screenshots s') = LoopedFacts.tileCount d /\
     download (Looped.world s') = download w /\
     pageScrollY (Looped.world s') = Looped.originalScrollPos d).
Proof.
  intros Hh Hv Hf.
  assert (Hshots : forall n i j, i <= j < i + Z.of_nat n -> shot host j <> None)
    by (intros n i j _; apply Hh).
  split.
  - intros Hre. rewrite LoopedRuns.handleCapture_reliable by assumption.
    unfold Looped.finish. rewrite Hre.
    eexists. split; [reflexivity |]. split; [| split].
    + rewrite LoopedRuns.loop_tiles_screenshots by apply Hshots.
      simpl. rewrite length_map. apply indices_length.
    + rewrite LoopedFacts.loop_tiles_download. reflexivity.
    + rewrite LoopedRuns.loop_tiles_log by apply Hshots. reflexivity.
  - intros Hre Hin. rewrite LoopedRuns.handleCapture_reliable by assumption.
    unfold Looped.finish. rewrite Hre, Hin.
    eexists. split; [reflexivity |].
    cbn [Looped.screenshots Looped.world]. split; [| split].
    + rewrite LoopedRuns.loop_tiles_screenshots by apply Hshots.
      simpl. rewrite length_map. apply indices_length.
    + simpl. rewrite LoopedFacts.loop_tiles_download. reflexivity.
    + reflexivity.
Qed.

(** A host that serves every tile but rejects the restoring scroll. *)
Definition pinnedHost : Host :=
  {| scrollOk := fun _ => true;
     shot := fun _ => Some (Png (solid 800 1000 gray));
     restoreOk := false;
     injectOk := true |}.

Lemma looped_late_failure_loses_capture_witness :
  (exists s',
     Looped.handleCapture pinnedHost (loopedDims 800 2500 1000) 3 startWorld
       = Rejected s' /\
     List.length (Looped.screenshots s') =
       LoopedFacts.tileCount (loopedDims 800 2500 1000) /\
     download (Looped.world s') = None /\
     rev (log (Looped.world s')) =
       [] ++ flat_map (loopedRound 1000)
               (indices (LoopedFacts.tileCount (loopedDims 800 2500 1000)) 0)) /\
  (exists s',
     Looped.handleCapture closedHost (loopedDims 800 2500 1000) 3 startWorld
       = Rejected s' /\
     List.length (Looped.screenshots s') =
       LoopedFacts.tileCount (loopedDims 800 2500 1000) /\
     download (Looped.world s') = None /\
     pageScrollY (Looped.world s') = 50).
Proof.
  split.
  - apply (proj1 (looped_late_failure_loses_capture pinnedHost
                    (loopedDims 800 2500 1000) 3 startWorld
                    ltac:(intros i; split; [reflexivity | discriminate])
                    ltac:(simpl; lia) ltac:(vm_compute; lia))).
    reflexivity.
  - apply (proj2 (looped_late_failure_loses_capture closedHost
                    (loopedDims 800 2500 1000) 3 startWorld
                    ltac:(intros i; split; [reflexivity | discriminate])
                    ltac:(simpl; lia) ltac:(vm_compute; lia)));
      reflexivity.
Defined.

(** A host whose captures all decode. *)
Definition sharp (host : Host) : Prop :=
  forall i, scrollOk host i = true /\ exists img, shot host i = Some (Png img).

Lemma sharp_reliable (host : Host) : sharp host -> reliable host.
Proof.
  intros H i. destruct (H i) as [Hsc [img Hsh]].
  split; [exact Hsc | congruence].
Qed.

(** X14.  A whole session of the second version on a host that serves
    every call with captures that decode: it ends with the page back at
    the offset it was at when [getPageDimensions] measured it, and with
    the download of one PNG exactly as wide and as high as
    [getPageDimensions] found the page. *)
Theorem looped_session_downloads_and_restores
    (host : Host) (p : Page) (fuel : nat) :
  sharp host -> restoreOk host = true -> injectOk host = true ->
  0 < innerHeight p ->
  (LoopedFacts.tileCount (Looped.getPageDimensions p) <= fuel)%nat ->
  exists s' img,
    Looped.session host fuel p = Settled s' /\
    pageScrollY (Looped.world s') = windowScrollY p /\
    download (Looped.world s') = Some (Png img) /\
    naturalWidth img = Looped.width (Looped.getPageDimensions p) /\
    naturalHeight img = Looped.height (Looped.getPageDimensions p).
Proof.
  intros Hsharp Hre Hin Hv Hf.
  pose proof (sharp_reliable host Hsharp) as Hh.
  assert (Hshots : forall n i j, i <= j < i + Z.of_nat n -> shot host j <> None)
    by (intros n i j _; apply Hh).
  unfold Looped.session.
  rewrite LoopedRuns.handleCapture_reliable by assumption.
  unfold Looped.finish. rewrite Hre, Hin.
  destruct (composite_settles
              (Looped.screenshots
                 (LoopedFacts.tiles host (Looped.getPageDimensions p)
                    (LoopedFacts.tileCount (Looped.getPageDimensions p)) 0
                    {| Looped.screenshots := []; Looped.world := worldOf p |}))
              (Looped.width (Looped.getPageDimensions p))
              (Looped.height (Looped.getPageDimensions p)))
    as [img [Hc [Hw Hht]]].
  - intros s Hs.
    rewrite LoopedRuns.loop_tiles_screenshots in Hs by apply Hshots.
    simpl in Hs. apply in_map_iff in Hs. destruct Hs as [j [<- _]].
    simpl. unfold shotUrl. destruct (Hsharp j) as [_ [img Hsh]].
    rewrite Hsh. discriminate.
  - rewrite Hc. exists
      {| Looped.screenshots :=
           Looped.screenshots
             (LoopedFacts.tiles host (Looped.getPageDimensions p)
                (LoopedFacts.tileCount (Looped.getPageDimensions p)) 0
                {| Looped.screenshots := []; Looped.world := worldOf p |});
         Looped.world :=
           downloadWorld (Png img)
             (scrollWorld (Looped.originalScrollPos (Looped.getPageDimensions p))
                (Looped.world
                   (LoopedFacts.tiles host (Looped.getPageDimensions p)
                      (LoopedFacts.tileCount (Looped.getPageDimensions p)) 0
                      {| Looped.screenshots := []; Looped.world := worldOf p |}))) |},
      img.
    repeat split; assumption.
Qed.

Lemma looped_session_downloads_and_restores_witness :
  exists s' img,
    Looped.session goodHost 3 (pageOf 2500 1000 50) = Settled s' /\
    pageScrollY (Looped.world s') = 50 /\
    download (Looped.world s') = Some (Png img) /\
    naturalWidth img = 800 /\
    naturalHeight img = 2500.
Proof.
  apply (looped_session_downloads_and_restores goodHost (pageOf 2500 1000 50) 3).
  - intros i. split; [reflexivity | eexists; reflexivity].
  - reflexivity.
  - reflexivity.
  - simpl. lia.
  - vm_compute. lia.
Defined.

(** X15.  A captured tile that does not decode ends the second version's
    session without a trace: [handleCapture] runs to its end with all its
    tiles and the page scrolled back, but nothing is downloaded and
    nothing is reported; the last thing that happens is the scroll back. *)
Theorem looped_bad_tile_ends_silently
    (host : Host) (d : Looped.Dimensions) (fuel : nat) (w : World) (j : Z) :
  reliable host -> restoreOk host = true -> injectOk host = true ->
  0 < Looped.viewportHeight d ->
  (LoopedFacts.tileCount d <= fuel)%nat ->
  0 <= j < Z.of_nat (LoopedFacts.tileCount d) ->
  decode (shotUrl host j) = None ->
  exists s',
    Looped.handleCapture host d fuel w = Settled s' /\
    List.length (Looped.screenshots s') = LoopedFacts.tileCount d /\
    pageScrollY (Looped.world s') = Looped.originalScrollPos d /\
    download (Looped.world s') = download w /\
    rev (log (Looped.world s')) =
      rev (log w) ++
      flat_map (loopedRound (Looped.viewportHeight d))
               (indices (LoopedFacts.tileCount d) 0) ++
      [Scrolled (Looped.originalScrollPos d)].
Proof.
  intros Hh Hre Hin Hv Hf Hj Hbad.
  assert (Hshots : forall n i j, i <= j < i + Z.of_nat n -> shot host j <> None)
    by (intros n i j' _; apply Hh).
  rewrite LoopedRuns.handleCapture_reliable by assumption.
  unfold Looped.finish. rewrite Hre, Hin.
  assert (Hstall : Looped.combineScreenshots
                     (Looped.screenshots
                        (LoopedFacts.tiles host d (LoopedFacts.tileCount d) 0
                           {| Looped.screenshots := []; Looped.world := w |}))
                     (Looped.width d) (Looped.height d) = Waiting).
  { unfold Looped.combineScreenshots.
    rewrite processScreenshots_stalled; [reflexivity |].
    exists {| Looped.dataUrl := shotUrl host j;
              Looped.yPosition := LoopedFacts.placement d j |}.
    split; [| exact Hbad].
    rewrite LoopedRuns.loop_tiles_screenshots by apply Hshots.
    simpl. apply in_map_iff. exists j. split; [reflexivity |].
    apply indices_In. lia. }
  rewrite Hstall. eexists. split; [reflexivity |].
  cbn [Looped.screenshots Looped.world]. split; [| split; [| split]].
  - rewrite LoopedRuns.loop_tiles_screenshots by apply Hshots.
    simpl. rewrite length_map. apply indices_length.
  - reflexivity.
  - simpl. rewrite LoopedFacts.loop_tiles_download. reflexivity.
  - simpl. rewrite LoopedRuns.loop_tiles_log by apply Hshots.
    simpl. rewrite <- app_assoc. reflexivity.
Qed.

(** A host whose capture of the second tile comes back undecodable. *)
Definition blurryHost : Host :=
  {| scrollOk := fun _ => true;
     shot := fun i => if i =? 1 then Some Corrupt
                      else Some (Png (solid 800 1000 gray));
     restoreOk := true;
     injectOk := true |}.

Lemma looped_bad_tile_ends_silently_witness :
  exists s',
    Looped.handleCapture blurryHost (loopedDims 800 2500 1000) 3 startWorld
      = Settled s' /\
    List.length (Looped.screenshots s') =
      LoopedFacts.tileCount (loopedDims 800 2500 1000) /\
    pageScrollY (Looped.world s') = 50 /\
    download (Looped.world s') = None /\
    rev (log (Looped.world s')) =
      [] ++
      flat_map (loopedRound 1000)
               (indices (LoopedFacts.tileCount (loopedDims 800 2500 1000)) 0) ++
      [Scrolled 50].
Proof.
  apply (looped_bad_tile_ends_silently blurryHost (loopedDims 800 2500 1000) 3
           startWorld 1).
  - intros i. split; [reflexivity |].
    simpl. destruct (i =? 1); discriminate.
  - reflexivity.
  - reflexivity.
  - simpl. lia.
  - vm_compute. lia.
  - vm_compute. split; [discriminate | reflexivity].
  - reflexivity.
Defined.

Lemma finish_not_waiting (host : Host) (d : Looped.Dimensions) (s : Looped.Capture) :
  Looped.finish host d s <> Waiting.
Proof.
  unfold Looped.finish.
  destruct (restoreOk host); [| discriminate].
  destruct (injectOk host); [| discriminate].
  destruct (Looped.combineScreenshots _ _ _); discriminate.
Qed.

(** X16.  With a positive viewport height [handleCapture] comes to an end,
    by its last statement or by a rejection, within
    [ceil (height / viewportHeight)] rounds of its loop, whatever the host
    answers; with a viewport height of 0 on a page of positive height the
    loop bound is [Infinity] and, while the host serves every call, it
    never ends. *)
Theorem handleCapture_termination (d : Looped.Dimensions) (w : World) :
  (0 < Looped.viewportHeight d ->
   forall host : Host,
     Looped.handleCapture host d
       (Z.to_nat (ceiling (Looped.height d) (Looped.viewportHeight d))) w
     <> Waiting) /\
  (Looped.viewportHeight d = 0 -> 0 < Looped.height d ->
   forall (host : Host) (fuel : nat),
     reliable host -> Looped.handleCapture host d fuel w = Waiting).
Proof.
  split.
  - intros Hv host. unfold Looped.handleCapture.
    pose proof (LoopedRuns.captureLoop_halts host d
                  (Z.to_nat (ceiling (Looped.height d) (Looped.viewportHeight d)))
                  0 {| Looped.screenshots := []; Looped.world := w |} Hv
                  ltac:(lia)) as H.
    destruct (Looped.captureLoop host d _ 0 _) as [s' | s' |].
    + apply finish_not_waiting.
    + discriminate.
    + contradiction.
  - intros Hv Hpos host fuel Hh. unfold Looped.handleCapture.
    destruct (captureLoop_termination host d
                {| Looped.screenshots := []; Looped.world := w |} Hh Hpos)
      as [_ H].
    now rewrite H.
Qed.

Lemma handleCapture_termination_witness :
  Looped.handleCapture flakyHost (loopedDims 800 2500 1000)
    (Z.to_nat (ceiling 2500 1000)) startWorld <> Waiting /\
  Looped.handleCapture goodHost (loopedDims 800 2500 0) 1000 startWorld = Waiting.
Proof.
  split.
  - apply (proj1 (handleCapture_termination (loopedDims 800 2500 1000) startWorld)).
    simpl. lia.
  - apply (proj2 (handleCapture_termination (loopedDims 800 2500 0) startWorld)).
    + reflexivity.
    + simpl. lia.
    + intros i. split; [reflexivity | discriminate].
Defined.

(** ** No hole in the second version's composite *)

Lemma loopedTiles_In (shots : list Looped.Screenshot) (s : Looped.Screenshot)
    (img : Image) :
  In s shots -> decode (Looped.dataUrl s) = Some img ->
  In (img, Looped.yPosition s) (loopedTiles shots).
Proof.
  induction shots as [| s0 rest IH]; intros Hin Hd; [destruct Hin |].
  simpl. destruct Hin as [-> | Hin].
  - rewrite Hd. now left.
  - destruct (decode (Looped.dataUrl s0)); [right |]; now apply IH.
Qed.

(** Every row of the page is in the tile of one round of the loop. *)
Lemma placement_covers (d : Looped.Dimensions) (y : Z) :
  0 < Looped.viewportHeight d -> 0 <= y < Looped.height d ->
  exists j,
    0 <= j < Z.of_nat (LoopedFacts.tileCount d) /\
    LoopedFacts.placement d j <= y
      < LoopedFacts.placement d j + Looped.viewportHeight d.
Proof.
  intros Hv Hy. unfold LoopedFacts.tileCount, LoopedFacts.placement.
  set (v := Looped.viewportHeight d) in *.
  pose proof (ceiling_lt_iff (Looped.height d) v (y / v) Hv) as Hc.
  pose proof (Z.div_mod y v ltac:(lia)) as Hdm.
  pose proof (Z.mod_pos_bound y v Hv) as Hm.
  assert (Hq : 0 <= y / v) by (apply Z.div_pos; lia).
  exists (y / v). split; nia.
Qed.

Lemma loopedTiles_origin (shots : list Looped.Screenshot) (img : Image) (dy : Z) :
  In (img, dy) (loopedTiles shots) ->
  exists s, In s shots /\ decode (Looped.dataUrl s) = Some img /\
            Looped.yPosition s = dy.
Proof.
  induction shots as [| s0 rest IH]; intros Hin; [destruct Hin |].
  simpl in Hin. destruct (decode (Looped.dataUrl s0)) as [img0 |] eqn:E.
  - destruct Hin as [Heq | Hin].
    + injection Heq as <- <-. exists s0. split; [now left | split; [exact E | reflexivity]].
    + destruct (IH Hin) as [s [Hs Hrest]]. exists s. split; [now right | exact Hrest].
  - destruct (IH Hin) as [s [Hs Hrest]]. exists s. split; [now right | exact Hrest].
Qed.

(** X18.  The second version's canvas has no background, but when every
    capture decodes to an opaque image at least as wide as the page and as
    high as the viewport, every pixel of the page in the composite is the
    pixel of a captured tile, the one drawn last over it, and is opaque:
    the tiles leave no hole. *)
Theorem looped_composite_has_no_hole
    (host : Host) (d : Looped.Dimensions) (fuel : nat) (w : World) (x y : Z) :
  (forall i, scrollOk host i = true /\
             exists img, shot host i = Some (Png img) /\
                         Looped.width d <= naturalWidth img /\
                         Looped.viewportHeight d <= naturalHeight img /\
                         forall px py,
                           0 <= px < naturalWidth img ->
                           0 <= py < naturalHeight img ->
                           alpha (pixelAt img px py) = 255) ->
  restoreOk host = true -> injectOk host = true ->
  0 < Looped.viewportHeight d ->
  (LoopedFacts.tileCount d <= fuel)%nat ->
  0 <= x < Looped.width d -> 0 <= y < Looped.height d ->
  exists s' img tile dy,
    Looped.handleCapture host d fuel w = Settled s' /\
    download (Looped.world s') = Some (Png img) /\
    topTile (loopedTiles (Looped.screenshots s')) x y = Some (tile, dy) /\
    pixelAt img x y = pixelAt tile x (y - dy) /\
    alpha (pixelAt img x y) = 255.
Proof.
  intros Hfull Hre Hin Hv Hf Hx Hy.
  assert (Hh : reliable host).
  { intros i. destruct (Hfull i) as [Hsc [img [Hsh _]]].
    split; [exact Hsc | congruence]. }
  assert (Hshots : forall n i j, i <= j < i + Z.of_nat n -> shot host j <> None)
    by (intros n i j _; apply Hh).
  rewrite LoopedRuns.handleCapture_reliable by assumption.
  set (shots := Looped.screenshots
                  (LoopedFacts.tiles host d (LoopedFacts.tileCount d) 0
                     {| Looped.screenshots := []; Looped.world := w |})).
  assert (Hshots_eq : shots =
            map (fun j => {| Looped.dataUrl := shotUrl host j;
                             Looped.yPosition := LoopedFacts.placement d j |})
                (indices (LoopedFacts.tileCount d) 0)).
  { unfold shots. rewrite LoopedRuns.loop_tiles_screenshots by apply Hshots.
    reflexivity. }
  assert (Hdec : forall s, In s shots -> decode (Looped.dataUrl s) <> None).
  { intros s Hs. rewrite Hshots_eq in Hs.
    apply in_map_iff in Hs. destruct Hs as [j [<- _]].
    simpl. unfold shotUrl. destruct (Hfull j) as [_ [img [Hsh _]]].
    rewrite Hsh. discriminate. }
  destruct (combineScreenshots_pixel shots (Looped.width d) (Looped.height d) x y
              Hdec Hx Hy) as [img [Hc [_ Hpix]]].
  destruct (topTile (loopedTiles shots) x y) as [[tile dy] |] eqn:Htop.
  - assert (Hopaque : alpha (pixelAt tile x (y - dy)) = 255).
    { destruct (topTile_some _ _ _ _ Htop) as [Hmem Hrect].
      destruct (loopedTiles_origin shots tile dy Hmem) as [s [Hs [Hd _]]].
      rewrite Hshots_eq in Hs. apply in_map_iff in Hs.
      destruct Hs as [j [<- _]]. simpl in Hd. unfold shotUrl in Hd.
      destruct (Hfull j) as [_ [img' [Hsh [_ [_ Hop]]]]].
      rewrite Hsh in Hd. simpl in Hd. injection Hd as <-.
      simpl in Hrect. unfold inRect in Hrect.
      destruct (Z.leb_spec 0 x), (Z.ltb_spec x (0 + naturalWidth img')),
               (Z.leb_spec dy y), (Z.ltb_spec y (dy + naturalHeight img'));
        simpl in Hrect; try discriminate.
      apply Hop; lia. }
    pose proof (Hpix tile dy eq_refl Hopaque) as Heq.
    unfold Looped.finish. rewrite Hre, Hin. fold shots. rewrite Hc.
    eexists. exists img, tile, dy. split; [reflexivity |].
    cbn [Looped.screenshots Looped.world]. fold shots.
    split; [reflexivity |]. split; [exact Htop |].
    split; [exact Heq | now rewrite Heq].
  - exfalso.
    destruct (placement_covers d y Hv Hy) as [j [Hj Hcov]].
    destruct (Hfull j) as [_ [tile [Hsh [Hwide [Hhigh _]]]]].
    pose proof (topTile_none _ _ _ Htop (tile, LoopedFacts.placement d j)) as Hnone.
    assert (Hmem : In (tile, LoopedFacts.placement d j) (loopedTiles shots)).
    { apply (loopedTiles_In shots
               {| Looped.dataUrl := shotUrl host j;
                  Looped.yPosition := LoopedFacts.placement d j |} tile).
      - rewrite Hshots_eq. apply in_map_iff. exists j.
        split; [reflexivity | apply indices_In; lia].
      - simpl. unfold shotUrl. rewrite Hsh. reflexivity. }
    specialize (Hnone Hmem). simpl in Hnone. unfold inRect in Hnone.
    destruct (Z.leb_spec 0 x), (Z.ltb_spec x (0 + naturalWidth tile)),
             (Z.leb_spec (LoopedFacts.placement d j) y),
             (Z.ltb_spec y (LoopedFacts.placement d j + naturalHeight tile));
      simpl in Hnone; try discriminate; lia.
Qed.

Lemma looped_composite_has_no_hole_witness :
  exists s' img tile dy,
    Looped.handleCapture goodHost (loopedDims 800 2500 1000) 3 startWorld
      = Settled s' /\
    download (Looped.world s') = Some (Png img) /\
    topTile (loopedTiles (Looped.screenshots s')) 10 1700 = Some (tile, dy) /\
    pixelAt img 10 1700 = pixelAt tile 10 (1700 - dy) /\
    alpha (pixelAt img 10 1700) = 255.
Proof.
  apply (looped_composite_has_no_hole goodHost (loopedDims 800 2500 1000) 3
           startWorld 10 1700).
  - intros i. split; [reflexivity |].
    eexists. split; [reflexivity |]. simpl.
    split; [lia | split; [lia | reflexivity]].
  - reflexivity.
  - reflexivity.
  - simpl. lia.
  - vm_compute. lia.
  - simpl. lia.
  - simpl. lia.
Defined.
